(** * term-srs: a spaced-repetition flashcard scheduler (main.py)

    A shallow embedding of [main.py] and of the parts of the Python runtime
    it relies on, followed by the properties of the scheduler
    ([review_card]), of due-card selection and of the merge-and-persist
    protocol of [run_review_session].

    Modelling conventions.
    - A Python [int] is a [Z]; a Python [float] is a primitive binary64
      [float], related to its bit-level specification [spec_float] by the
      library's [Prim2SF].
    - A Python [str] is a [string]; the comparison [<=] on strings is the
      lexicographic order on character codes.  All the strings the
      scheduler compares are ASCII (ISO dates).  [str.strip()] is
      modelled on ASCII text: the statements that read the answers off
      the lines typed take these lines to be ASCII ([ascii_event]).
    - A [datetime.date] is represented by its proleptic Gregorian ordinal
      (what [date.toordinal()] returns), an integer between 1
      (0001-01-01) and 3652059 (9999-12-31).
    - A card is a Python [dict]; cards are mutable and shared between the
      deck, the list of due cards and the list of updated cards, so the
      session is modelled over a store of card objects addressed by
      location.
    - Exceptions are explicit: a computation that can raise returns a
      [result].
    - The terminal is a list of events (lines typed, Ctrl-C); the clock
      shows one date, [today], for the whole of a session;
      [random.shuffle] is a function on lists, a permutation in the
      statements that need it. *)

From Stdlib Require Import ZArith Lia Bool List String Ascii Floats.
From stdpp Require Import base option list gmap strings.

Set Warnings "-inexact-float".

Local Open Scope Z_scope.

(** ** Exceptions *)

Inductive exn : Type :=
  | OverflowError
  | ValueError
  | KeyboardInterrupt
  | EOFError.

Inductive result (A : Type) : Type :=
  | Ok (a : A)
  | Raise (e : exn).

Arguments Ok {A} a.
Arguments Raise {A} e.

#[global] Instance result_ret : MRet result := fun _ a => Ok a.

#[global] Instance result_bind : MBind result := fun _ _ f m =>
  match m with
  | Ok a => f a
  | Raise e => Raise e
  end.

(** ** Python floats and integers *)

Module PyFloat.

(** [float(n)] for an integer operand of a mixed [int * float] product:
    the integer is rounded to the nearest binary64 value (ties to even);
    CPython raises [OverflowError] ("int too large to convert to float")
    when that value is not finite. *)
Definition float_of_int (n : Z) : result float :=
  match binary_normalize prec emax n 0 false with
  | S754_infinity _ => Raise OverflowError
  | s => Ok (SF2Prim s)
  end.

(** The integer nearest to [m * 2^e], ties going to the even integer. *)
Definition round_half_even (m : positive) (e : Z) : Z :=
  match e with
  | Z.neg p =>
      let q := Z.pos m / 2 ^ Z.pos p in
      let r := Z.pos m mod 2 ^ Z.pos p in
      match 2 * r ?= 2 ^ Z.pos p with
      | Lt => q
      | Gt => q + 1
      | Eq => if Z.even q then q else q + 1
      end
  | _ => Z.pos m * 2 ^ e
  end.

(** [round(x)] with one argument: an [int], half-way cases to even;
    [ValueError] on NaN and [OverflowError] on an infinity. *)
Definition py_round (x : float) : result Z :=
  match Prim2SF x with
  | S754_nan => Raise ValueError
  | S754_infinity _ => Raise OverflowError
  | S754_zero _ => Ok 0
  | S754_finite s m e => Ok (cond_Zopp s (round_half_even m e))
  end.

(** [max(a, b)]: the second argument wins only when it compares
    strictly greater than the first. *)
Definition py_max (a b : float) : float :=
  if (a <? b)%float then b else a.

End PyFloat.

(** ** Python dates *)

Module PyDate.

Definition MAXORDINAL : Z := 3652059.
Definition DI400Y : Z := 146097.
Definition DI100Y : Z := 36524.
Definition DI4Y : Z := 1461.

(** A date is valid when its ordinal lies in [1 .. MAXORDINAL]. *)
Definition valid_date (d : Z) : Prop := 1 <= d <= MAXORDINAL.

(** [_DAYS_IN_MONTH] and [_DAYS_BEFORE_MONTH], indexed by month number
    (index 0 is a placeholder, as in the library). *)
Definition DAYS_IN_MONTH : list Z :=
  [-1; 31; 28; 31; 30; 31; 30; 31; 31; 30; 31; 30; 31].
Definition DAYS_BEFORE_MONTH : list Z :=
  [-1; 0; 31; 59; 90; 120; 151; 181; 212; 243; 273; 304; 334].

Definition table (t : list Z) (i : Z) : Z := nth (Z.to_nat i) t (-1).

(** [_ord2ymd]: ordinal to (year, month, day). *)
Definition ord2ymd (ordinal : Z) : Z * Z * Z :=
  let n := ordinal - 1 in
  let n400 := n / DI400Y in
  let n := n mod DI400Y in
  let year := n400 * 400 + 1 in
  let n100 := n / DI100Y in
  let n := n mod DI100Y in
  let n4 := n / DI4Y in
  let n := n mod DI4Y in
  let n1 := n / 365 in
  let n := n mod 365 in
  let year := year + n100 * 100 + n4 * 4 + n1 in
  if (n1 =? 4) || (n100 =? 4) then (year - 1, 12, 31)
  else
    let leapyear := (n1 =? 3) && (negb (n4 =? 24) || (n100 =? 3)) in
    let month := Z.shiftr (n + 50) 5 in
    let preceding :=
      table DAYS_BEFORE_MONTH month
      + (if (2 <? month) && leapyear then 1 else 0) in
    if n <? preceding then
      let month := month - 1 in
      let preceding :=
        preceding
        - (table DAYS_IN_MONTH month
           + (if (month =? 2) && leapyear then 1 else 0)) in
      (year, month, n - preceding + 1)
    else (year, month, n - preceding + 1).

(** [_is_leap(year)]. *)
Definition is_leap (y : Z) : bool :=
  (y mod 4 =? 0) && (negb (y mod 100 =? 0) || (y mod 400 =? 0)).

(** [_days_before_year(year)]: the days before January 1st of [year]. *)
Definition days_before_year (year : Z) : Z :=
  let y := year - 1 in y * 365 + y / 4 - y / 100 + y / 400.

(** One decimal digit as a character. *)
Definition digit (d : Z) : ascii := ascii_of_N (Z.to_N (48 + d)).

(** ["%02d" % n] for [0 <= n <= 99] and ["%04d" % n] for
    [0 <= n <= 9999]. *)
Definition fmt02 (n : Z) (rest : string) : string :=
  String (digit (n / 10)) (String (digit (n mod 10)) rest).
Definition fmt04 (n : Z) (rest : string) : string :=
  String (digit (n / 1000)) (String (digit (n / 100 mod 10))
    (String (digit (n / 10 mod 10)) (String (digit (n mod 10)) rest))).

(** [date.isoformat()]: ["%04d-%02d-%02d" % (year, month, day)]. *)
Definition isoformat (d : Z) : string :=
  let '(y, m, dd) := ord2ymd d in
  fmt04 y (String "-" (fmt02 m (String "-" (fmt02 dd EmptyString)))).

(** [datetime.timedelta(days=n)]: the number of days, limited to nine
    decimal digits. *)
Definition timedelta (days : Z) : result Z :=
  if Z.abs days <=? 999999999 then Ok days else Raise OverflowError.

(** [date + timedelta]: the date [delta] days later, [OverflowError]
    outside the supported range. *)
Definition date_add (d delta : Z) : result Z :=
  let o := d + delta in
  if (0 <? o) && (o <=? MAXORDINAL) then Ok o else Raise OverflowError.

End PyDate.

(** ** Python strings *)

Module PyStr.

(** [s1 <= s2] on strings. *)
Definition le (s1 s2 : string) : bool := String.leb s1 s2.

(** ASCII white space: what [str.strip()] removes at both ends of a
    line of ASCII text.  Python also removes the white space of Unicode
    (U+0085, U+00A0, U+2003, ...), which this model leaves in place:
    [strip] below is [str.strip] on ASCII lines only. *)
Definition is_space (c : ascii) : bool :=
  let n := N_of_ascii c in
  ((9 <=? n) && (n <=? 13) || (28 <=? n) && (n <=? 32))%N.

Fixpoint lstrip (s : string) : string :=
  match s with
  | String c r => if is_space c then lstrip r else s
  | EmptyString => EmptyString
  end.

Fixpoint rstrip (s : string) : string :=
  match s with
  | String c r =>
      match rstrip r with
      | EmptyString => if is_space c then EmptyString else String c EmptyString
      | r' => String c r'
      end
  | EmptyString => EmptyString
  end.

Definition strip (s : string) : string := rstrip (lstrip s).

End PyStr.

(** ** main.py: configuration and cards *)

Import PyFloat PyDate.

Definition DEFAULT_EASE_FACTOR : float := 2.5%float.

(** [QUALITY_MAP.get(key)]: the four accepted answers and their SM-2
    quality; [None] for any other key. *)
Definition QUALITY_MAP (key : string) : option Z :=
  if String.eqb key "1" then Some 0        (* Again *)
  else if String.eqb key "2" then Some 3   (* Hard *)
  else if String.eqb key "3" then Some 4   (* Good *)
  else if String.eqb key "4" then Some 5   (* Easy *)
  else None.

(** A card, as stored in a deck file: the keys of the dictionary. *)
Record Card : Type := mkCard {
  front : string;
  back : string;
  next_review_date : string;
  repetitions : Z;
  interval : Z;
  ease_factor : float
}.

#[global] Instance Card_inhabited : Inhabited Card :=
  populate (mkCard EmptyString EmptyString EmptyString 0 0 0%float).

(** The merge key of a card: [(card['front'], card['back'])]. *)
Definition key (c : Card) : string * string := (front c, back c).

(** ** The terminal *)

(** What the user does at a prompt: type a line, or press Ctrl-C.  The
    end of the list is the end of standard input ([EOFError]). *)
Inductive event : Type :=
  | Line (s : string)
  | CtrlC.

(** [input(prompt)]: the line read and the remaining input. *)
Definition input (stdin : list event) : result string * list event :=
  match stdin with
  | [] => (Raise EOFError, [])
  | CtrlC :: rest => (Raise KeyboardInterrupt, rest)
  | Line s :: rest => (Ok s, rest)
  end.

(** ** review_card *)

(** Lines 46-48: prompt until the answer is one of the keys of
    [QUALITY_MAP]. *)
Fixpoint read_quality (stdin : list event) : result Z * list event :=
  match stdin with
  | [] => (Raise EOFError, [])
  | CtrlC :: rest => (Raise KeyboardInterrupt, rest)
  | Line s :: rest =>
      match QUALITY_MAP (PyStr.strip s) with
      | Some quality => (Ok quality, rest)
      | None => read_quality rest
      end
  end.

(** Lines 50-61: the new [repetitions] and [interval]. *)
Definition next_interval (quality : Z) (card : Card) : result (Z * Z) :=
  if quality <? 3 then Ok (0, 1)
  else
    i ← (if repetitions card =? 0 then Ok 1
         else if repetitions card =? 1 then Ok 6
         else x ← float_of_int (interval card);
              py_round (x * ease_factor card)%float);
    Ok (repetitions card + 1, i).

(** Line 63: the new ease factor.  [5 - quality] is an integer, so each
    product with a float converts it first. *)
Definition next_ease_factor (quality : Z) (ef : float) : result float :=
  d ← float_of_int (5 - quality);
  Ok (py_max 1.3 (ef + (0.1 - d * (0.08 + d * 0.02))))%float.

(** Lines 50-68: the update of a card for a given quality, on the day
    [today].  The source mutates the card field by field; an exception
    raised on the way ([OverflowError], [ValueError]) is not caught by the
    session, which ends without saving, so only the completed update is
    observable. *)
Definition schedule (today : Z) (quality : Z) (card : Card) : result Card :=
  '(reps, i) ← next_interval quality card;
  ef ← next_ease_factor quality (ease_factor card);
  next_review_delta ← timedelta i;
  d ← date_add today next_review_delta;
  Ok {| front := front card;
        back := back card;
        next_review_date := isoformat d;
        repetitions := reps;
        interval := i;
        ease_factor := ef |}.

(** [review_card(card)]: ask for the quality, then update the card. *)
Definition review_card (today : Z) (card : Card) (stdin : list event)
  : result Card * list event :=
  match read_quality stdin with
  | (Ok quality, rest) => (schedule today quality card, rest)
  | (Raise e, rest) => (Raise e, rest)
  end.

(** ** add_new_card *)

(** Lines 81-88: the dictionary of a new card. *)
Definition new_card (today : Z) (front back : string) : Card :=
  {| front := front;
     back := back;
     next_review_date := isoformat today;
     repetitions := 0;
     interval := 1;
     ease_factor := DEFAULT_EASE_FACTOR |}.

(** [add_new_card]: the deck that is saved, or [None] when the prompt is
    cancelled and nothing is written. *)
Definition add_new_card (today : Z) (deck : list Card) (stdin : list event)
  : option (list Card) :=
  match input stdin with
  | (Ok f, rest) =>
      match input rest with
      | (Ok b, _) => Some (deck ++ [new_card today f b])
      | (Raise _, _) => None
      end
  | (Raise _, _) => None
  end.

(** ** run_review_session *)

(** The deck loaded from the file is a list of card objects.  The store
    [h] holds the objects, a deck or a list of due cards holds their
    locations; [h !!! l] reads the card at [l] and [<[l:=c]> h] is the
    store after the card at [l] has been mutated into [c]. *)

(** Line 101: the test of the comprehension. *)
Definition is_due (today_iso : string) (c : Card) : bool :=
  PyStr.le (next_review_date c) today_iso.

(** Line 101: [[card for card in deck if ...]], in deck order. *)
Definition select_due (h : list Card) (today_iso : string) (deck : list nat)
  : list nat :=
  List.filter (fun l => is_due today_iso (h !!! l)) deck.

(** Lines 113-124: the review loop.  It returns the exception that ended
    it, if any, together with the store and [updated_cards] at that
    point. *)
Fixpoint review_loop (today : Z) (due_cards : list nat) (h : list Card)
    (updated_cards : list nat) (stdin : list event)
  : option exn * list Card * list nat :=
  match due_cards with
  | [] => (None, h, updated_cards)
  | card :: due_cards =>
      match input stdin with
      | (Raise e, _) => (Some e, h, updated_cards)
      | (Ok _, stdin) =>
          match review_card today (h !!! card) stdin with
          | (Raise e, _) => (Some e, h, updated_cards)
          | (Ok updated_card, stdin) =>
              review_loop today due_cards (<[card := updated_card]> h)
                (updated_cards ++ [card]) stdin
          end
      end
  end.

(** Lines 126 and 136: [{(c['front'], c['back']): c for c in updated_cards}];
    a later card replaces an earlier one with the same key. *)
Definition card_map (h : list Card) (updated_cards : list nat)
  : gmap (string * string) nat :=
  foldl (fun m l => <[key (h !!! l) := l]> m) ∅ updated_cards.

(** Lines 128-130: one iteration of the merge loop, at index [i]. *)
Definition merge_step (h : list Card) (cm : gmap (string * string) nat)
    (deck : list nat) (i : nat) : list nat :=
  match deck !! i with
  | Some card =>
      match cm !! key (h !!! card) with
      | Some updated => <[i := updated]> deck
      | None => deck
      end
  | None => deck
  end.

(** Lines 126-130 (and 136-140): the merge of [updated_cards] into the
    deck, in place, index by index. *)
Definition merge (h : list Card) (updated_cards : list nat) (deck : list nat)
  : list nat :=
  foldl (merge_step h (card_map h updated_cards)) deck (seq 0 (length deck)).

(** [save_deck]: the cards written to the deck file. *)
Definition save_deck (h : list Card) (deck : list nat) : list Card :=
  (fun l => h !!! l) <$> deck.

(** How a session ends, and the deck it has written, if any. *)
Inductive outcome : Type :=
  | EmptyDeck
  | NothingDue
  | Completed (saved : list Card)
  | Interrupted (saved : list Card)
  | Uncaught (e : exn).

(** [run_review_session]: [stored] is the content of the deck file,
    [shuffle] the permutation chosen by [random.shuffle], [today] the
    date on the clock during the session. *)
Definition run_review_session (today : Z) (shuffle : list nat -> list nat)
    (stored : list Card) (stdin : list event) : outcome :=
  let deck := seq 0 (length stored) in
  match stored with
  | [] => EmptyDeck
  | _ =>
      let today_iso := isoformat today in
      match select_due stored today_iso deck with
      | [] => NothingDue
      | due_cards =>
          match review_loop today (shuffle due_cards) stored [] stdin with
          | (None, h, updated_cards) =>
              Completed (save_deck h (merge h updated_cards deck))
          | (Some KeyboardInterrupt, h, updated_cards)
          | (Some EOFError, h, updated_cards) =>
              Interrupted (save_deck h (merge h updated_cards deck))
          | (Some e, _, _) => Uncaught e
          end
      end
  end.

(** ** Notions used in the statements *)

(** The valid scores: Again, Hard, Good, Easy. *)
Definition valid_score (q : Z) : Prop := q = 0 \/ q = 3 \/ q = 4 \/ q = 5.

(** [str.isascii()]: every character code is below 128. *)
Fixpoint isascii (s : string) : bool :=
  match s with
  | EmptyString => true
  | String c r => (N_of_ascii c <? 128)%N && isascii r
  end.

(** Input typed in ASCII: on such lines [PyStr.strip], which removes
    ASCII white space, is [str.strip]. *)
Definition ascii_event (ev : event) : Prop :=
  match ev with
  | Line s => isascii s = true
  | CtrlC => True
  end.

(** The card invariants of the data model. *)
Definition card_inv (c : Card) : Prop :=
  (1.3 <=? ease_factor c)%float = true /\ 1 <= interval c /\ 0 <= repetitions c.

(** A sequence of reviews of one card: the day and the score of each. *)
Fixpoint review_seq (reviews : list (Z * Z)) (c : Card) : result Card :=
  match reviews with
  | [] => Ok c
  | (today, q) :: reviews => c' ← schedule today q c; review_seq reviews c'
  end.

(** The scores the user gives to the first [n] cards of a session, up to
    the first cancelled prompt. *)
Fixpoint ratings (n : nat) (stdin : list event) : list Z :=
  match n with
  | O => []
  | S n =>
      match input stdin with
      | (Ok _, stdin) =>
          match read_quality stdin with
          | (Ok q, stdin) => q :: ratings n stdin
          | (Raise _, _) => []
          end
      | (Raise _, _) => []
      end
  end.

(** The merge, read as a function on decks of cards: every card whose
    key is in the lookup is replaced by the lookup's card. *)
Definition merge_cards (updated_cards deck : list Card) : list Card :=
  let h := updated_cards ++ deck in
  save_deck h (merge h (seq 0 (length updated_cards))
                 (seq (length updated_cards) (length deck))).

(** ** Auxiliary notions used in the proofs *)

(** What the merge puts in place of the card at [l]. *)
Definition merged (h : list Card) (updated : list nat) (l : nat) : nat :=
  default l (card_map h updated !! key (h !!! l)).

(** The card that replaces [c] when [updated_cards] is merged into a
    deck of cards. *)
Definition replacement (updated_cards : list Card) (c : Card) : Card :=
  match card_map updated_cards (seq 0 (length updated_cards)) !! key c with
  | Some u => updated_cards !!! u
  | None => c
  end.

(** The exceptions a prompt can raise: Ctrl-C and the end of input. *)
Definition cancellation (e : exn) : Prop :=
  e = KeyboardInterrupt \/ e = EOFError.

(** The month and the day of the month of day number [n] (from 0) of a
    year: the last part of [ord2ymd]. *)
Definition month_day (leapyear : bool) (n : Z) : Z * Z :=
  let month := Z.shiftr (n + 50) 5 in
  let preceding :=
    table DAYS_BEFORE_MONTH month
    + (if (2 <? month) && leapyear then 1 else 0) in
  if n <? preceding then
    let month := month - 1 in
    let preceding :=
      preceding
      - (table DAYS_IN_MONTH month
         + (if (month =? 2) && leapyear then 1 else 0)) in
    (month, n - preceding + 1)
  else (month, n - preceding + 1).

Definition year_length (y : Z) : Z := if is_leap y then 366 else 365.

(** Month and day as one number, ordered as the pair is. *)
Definition md_code (md : Z * Z) : Z := 32 * fst md + snd md.

(** The check run on every day number of a year: month and day are in
    range, and the next day comes later in the calendar. *)
Definition md_ok (leap : bool) (n : Z) : bool :=
  let '(m, d) := month_day leap n in
  (1 <=? m) && (m <=? 12) && (1 <=? d) && (d <=? 31)
  && ((n + 1 =? (if leap then 366 else 365))
      || (md_code (m, d) <? md_code (month_day leap (n + 1)))).

(** The order of (year, month, day) triples. *)
Definition ymd_compare (a b : Z * Z * Z) : comparison :=
  let '(y1, m1, d1) := a in
  let '(y2, m2, d2) := b in
  match y1 ?= y2 with
  | Eq => match m1 ?= m2 with Eq => d1 ?= d2 | c => c end
  | c => c
  end.

(** The result of shifting a mantissa right by [k] binary places, as
    the rounding of [SpecFloat] does it. *)
Definition shifted (m e k : Z) : Z * Z :=
  if 0 <? k then (m / 2 ^ k, e + k) else (m, e).

(** The float made of a rounded mantissa and its exponent. *)
Definition pack (s : bool) (m e : Z) : spec_float :=
  match m with
  | 0 => S754_zero s
  | Z.pos p => if e <=? emax - prec then S754_finite s p e else S754_infinity s
  | Z.neg _ => S754_nan
  end.

(** A float that is at least one: plus infinity, or a positive finite
    float [m * 2^e] with [2^(digits m + e - 1) >= 1]. *)
Definition at_least_one (s : spec_float) : Prop :=
  match s with
  | S754_infinity false => True
  | S754_finite false m e => 1 <= Z.pos (digits2_pos m) + e
  | _ => False
  end.

(** ** Example cards and days *)

(** 2024-01-01. *)
Definition new_year_2024 : Z := 738886.

(** The card of the "Easy" scenario: two successes so far, interval 6. *)
Definition easy_card : Card :=
  mkCard "front" "back" "2024-01-01" 2 6 2.5.

Definition easy_card_reviewed : Card :=
  Eval vm_compute in
    match schedule new_year_2024 5 easy_card with
    | Ok c => c
    | Raise _ => easy_card
    end.

(** The card of the "Again" scenario: one success so far, interval 6. *)
Definition again_card : Card :=
  mkCard "front" "back" "2024-01-01" 1 6 2.5.

Definition again_card_reviewed : Card :=
  Eval vm_compute in
    match schedule new_year_2024 0 again_card with
    | Ok c => c
    | Raise _ => again_card
    end.

(** A card read from a deck file whose ease factor is below the floor. *)
Definition low_ease_card : Card :=
  mkCard "front" "back" "2024-01-01" 2 1 0.25.

(** A deck in which the first and the third card have the same front and
    back; on 2024-01-01 the first two cards are due, the third is not. *)
Definition dup_due : Card := mkCard "q1" "a1" "2023-12-01" 0 1 2.5.
Definition other_due : Card := mkCard "q2" "a2" "2023-12-31" 0 1 2.5.
Definition dup_later : Card := mkCard "q1" "a1" "2030-01-01" 5 100 2.5.
Definition duplicate_deck : list Card := [dup_due; other_due; dup_later].

(** The same deck with three different questions. *)
Definition third_later : Card := mkCard "q3" "a3" "2030-01-01" 5 100 2.5.
Definition distinct_deck : list Card := [dup_due; other_due; third_later].

(** The user reveals the first card, answers "3" (Good), and standard
    input ends at the next prompt. *)
Definition one_answer : list event := [Line ""; Line "3"].

(** The first card of these decks after its review with score 4. *)
Definition dup_due_reviewed : Card :=
  Eval vm_compute in
    match schedule new_year_2024 4 dup_due with
    | Ok c => c
    | Raise _ => dup_due
    end.

(** Three cards dated the day before, the day and the day after
    2024-01-01. *)
Definition dated_deck : list Card :=
  [mkCard "q1" "a1" (isoformat (new_year_2024 - 1)) 0 1 2.5;
   mkCard "q2" "a2" (isoformat new_year_2024) 0 1 2.5;
   mkCard "q3" "a3" (isoformat (new_year_2024 + 1)) 0 1 2.5].

(** Three reviews of a new card: Good, Again three days later, Easy the
    day after. *)
Definition three_reviews : list (Z * Z) :=
  [(new_year_2024, 4); (new_year_2024 + 3, 0); (new_year_2024 + 4, 5)].

Definition after_three_reviews : Card :=
  Eval vm_compute in
    match review_seq three_reviews (new_card new_year_2024 "front" "back") with
    | Ok c => c
    | Raise _ => new_card new_year_2024 "front" "back"
    end.

(** ** Notions used in the further properties *)

(** An answer the quality prompt rejects: a line of ASCII text that is
    not one of the keys of [QUALITY_MAP] once stripped. *)
Definition invalid_answer (ev : event) : Prop :=
  exists s, ev = Line s /\ isascii s = true /\
            QUALITY_MAP (PyStr.strip s) = None.

(** The exceptions the scheduler can raise. *)
Definition scheduler_error (e : exn) : Prop :=
  e = OverflowError \/ e = ValueError.

(** The deck a session has written, if it has written one. *)
Definition written (o : outcome) : option (list Card) :=
  match o with
  | Completed saved | Interrupted saved => Some saved
  | _ => None
  end.

(** A card whose next interval, [round(4000000 * 2.5)] days, leads past
    the last date of the calendar. *)
Definition far_card : Card :=
  mkCard "front" "back" "2024-01-01" 2 4000000 2.5.

(** A deck whose second card is [far_card], and a session in which the
    user scores the first card "3" (Good) and the second "4" (Easy). *)
Definition crash_deck : list Card := [dup_due; far_card].
Definition crash_answers : list event :=
  [Line ""; Line "3"; Line ""; Line "4"].

(** A card as a damaged deck file could hold it: negative counters and
    a NaN ease factor. *)
Definition broken_card : Card :=
  mkCard "front" "back" "" (-3) (-7) nan.

(** [easy_card] after a review with score 4 (Good). *)
Definition easy_card_good : Card :=
  Eval vm_compute in
    match schedule new_year_2024 4 easy_card with
    | Ok c => c
    | Raise _ => easy_card
    end.

(** The user reveals and scores two cards: "3" (Good), then "1"
    (Again). *)
Definition two_answers : list event :=
  [Line ""; Line "3"; Line ""; Line "1"].

(** [distinct_deck] after the session in which both due cards get these
    answers. *)
Definition distinct_deck_completed : list Card :=
  Eval vm_compute in
    match run_review_session new_year_2024 id distinct_deck two_answers with
    | Completed saved => saved
    | _ => []
    end.


(** [duplicate_deck] after the same session. *)
Definition duplicate_deck_completed : list Card :=
  Eval vm_compute in
    match run_review_session new_year_2024 id duplicate_deck two_answers with
    | Completed saved => saved
    | _ => []
    end.

(** The deck saved by the session in which the user scores [dup_due]
    and a card just added to it, "3" and "1". *)
Definition after_add_completed : list Card :=
  Eval vm_compute in
    match run_review_session new_year_2024 id
            ([dup_due] ++ [new_card new_year_2024 "q" "a"]) two_answers with
    | Completed saved => saved
    | _ => []
    end.

(** A string made of white space only. *)
Fixpoint blank (s : string) : bool :=
  match s with
  | EmptyString => true
  | String c r => PyStr.is_space c && blank r
  end.

(** [m1 * 2^e1 <= m2 * 2^e2], on integers. *)
Definition value_le (m1 e1 m2 e2 : Z) : Prop :=
  let lo := Z.min e1 e2 in m1 * 2 ^ (e1 - lo) <= m2 * 2 ^ (e2 - lo).

(** A float that is at least the integer [n]: plus infinity, or a
    positive finite float [m * 2^e] with [n <= m * 2^e]. *)
Definition at_least (n : Z) (s : spec_float) : Prop :=
  match s with
  | S754_infinity false => True
  | S754_finite false m e => value_le n 0 (Z.pos m) e
  | _ => False
  end.

(** * Properties *)

(** ** binary64 rounding *)

Module PyFloatFacts.

Lemma fexp64 x : fexp prec emax x = Z.max (x - 53) (-1074).
Proof. reflexivity. Qed.

Lemma Zdigits2_log2 m : 0 < m -> Zdigits2 m = Z.log2 m + 1.
Proof.
  destruct m as [|p|p]; try lia. intros _. simpl.
  induction p as [p IH|p IH|]; simpl; try reflexivity.
  - rewrite Pos2Z.inj_succ, IH. destruct p; simpl; lia.
  - rewrite Pos2Z.inj_succ, IH. destruct p; simpl; lia.
Qed.

Lemma Zdigits2_nonneg m : 0 <= Zdigits2 m.
Proof. destruct m; simpl; lia. Qed.

Lemma Zdigits2_pos m : 0 < m -> 0 < Zdigits2 m.
Proof. destruct m; simpl; lia. Qed.

Lemma Zdigits2_div_pow2 m k :
  0 < m -> 0 <= k -> Zdigits2 (m / 2 ^ k) = Z.max 0 (Zdigits2 m - k).
Proof.
  intros Hm Hk. rewrite <- Z.shiftr_div_pow2 by lia.
  destruct (Z.eq_dec (Z.shiftr m k) 0) as [E|E].
  - rewrite E. simpl. apply Z.shiftr_eq_0_iff in E.
    rewrite (Zdigits2_log2 m) by lia. lia.
  - assert (0 <= Z.shiftr m k) by (apply Z.shiftr_nonneg; lia).
    rewrite !Zdigits2_log2 by lia. rewrite Z.log2_shiftr by lia.
    assert (~ Z.log2 m < k).
    { intros Hlt. apply E. apply Z.shiftr_eq_0; lia. }
    lia.
Qed.

Lemma Zdigits2_succ m :
  0 <= m -> Zdigits2 m <= Zdigits2 (m + 1) <= Zdigits2 m + 1.
Proof.
  intros Hm. destruct (Z.eq_dec m 0) as [->|E]; [simpl; lia|].
  rewrite !Zdigits2_log2 by lia.
  pose proof (Z.log2_succ_le m) as H1. rewrite <- Z.add_1_r in H1.
  pose proof (Z.log2_le_mono m (m + 1)). lia.
Qed.

Lemma digits2_pos_iter_xO m d :
  Z.pos (digits2_pos (Pos.iter xO m d)) = Z.pos (digits2_pos m) + Z.pos d.
Proof.
  induction d as [|d IH] using Pos.peano_ind.
  - simpl. lia.
  - rewrite Pos.iter_succ. simpl digits2_pos. lia.
Qed.

(** [shr_1] halves a non-negative mantissa; iterating it divides by a
    power of two. *)
Lemma shr_1_div2 r : 0 <= shr_m r -> shr_m (shr_1 r) = shr_m r / 2.
Proof.
  destruct r as [m b s]; simpl shr_m. intros Hm. rewrite <- Z.div2_div.
  destruct m as [|[q|q|]|q]; try reflexivity; lia.
Qed.

Lemma iter_pos_shr_1 p r :
  0 <= shr_m r -> shr_m (SpecFloat.iter_pos shr_1 p r) = shr_m r / 2 ^ Z.pos p.
Proof.
  assert (H0 : forall a b, 0 <= a -> 0 < b -> 0 <= a / b).
  { intros. apply Z.div_pos; lia. }
  revert r. induction p as [p IH|p IH|]; intros r Hr; simpl SpecFloat.iter_pos.
  - rewrite IH, IH, shr_1_div2; auto.
    + replace (Z.pos p~1) with (Z.pos p + Z.pos p + 1) by lia.
      rewrite !Z.pow_add_r, Z.pow_1_r by lia.
      rewrite !Z.div_div by lia. f_equal. lia.
    + rewrite shr_1_div2; auto. apply H0; lia.
    + rewrite IH, shr_1_div2; auto.
      * apply H0; try lia. apply H0; lia.
      * rewrite shr_1_div2; auto. apply H0; lia.
  - rewrite IH, IH; auto.
    + replace (Z.pos p~0) with (Z.pos p + Z.pos p) by lia.
      rewrite Z.pow_add_r by lia.
      rewrite !Z.div_div by lia. reflexivity.
    + rewrite IH; auto. apply H0; lia.
  - rewrite shr_1_div2; auto.
Qed.

Lemma shr_spec r e n :
  0 <= shr_m r ->
  shr_m (fst (shr r e n)) = (if 0 <? n then shr_m r / 2 ^ n else shr_m r) /\
  snd (shr r e n) = (if 0 <? n then e + n else e).
Proof.
  intros Hr. destruct n as [|p|p]; simpl; auto.
  split; auto. now apply iter_pos_shr_1.
Qed.

Lemma shr_m_record_of_loc m l : shr_m (shr_record_of_loc m l) = m.
Proof. now destruct l as [|[| |]]. Qed.

Lemma round_nearest_even_cases m l :
  round_nearest_even m l = m \/ round_nearest_even m l = m + 1.
Proof. destruct l as [|[| |]]; simpl; auto. destruct (Z.even m); auto. Qed.

Lemma shr_fexp_spec m e l :
  0 <= m ->
  let '(r, e') := shr_fexp prec emax m e l in
  (shr_m r, e') = shifted m e (fexp prec emax (Zdigits2 m + e) - e).
Proof.
  intros Hm. unfold shr_fexp, shifted.
  destruct (shr_spec (shr_record_of_loc m l) e
              (fexp prec emax (Zdigits2 m + e) - e)) as [H1 H2].
  { now rewrite shr_m_record_of_loc. }
  rewrite shr_m_record_of_loc in H1.
  destruct (shr _ _ _) as [r e']. simpl in H1, H2. rewrite H1, H2.
  now destruct (0 <? _).
Qed.

(** The two shifts and the rounding step of [binary_round_aux]. *)
Lemma binary_round_aux_spec s m e l :
  0 <= m ->
  exists m1 e1 m2 m3 e3,
    (m1, e1) = shifted m e (fexp prec emax (Zdigits2 m + e) - e) /\
    (m2 = m1 \/ m2 = m1 + 1) /\
    (m3, e3) = shifted m2 e1 (fexp prec emax (Zdigits2 m2 + e1) - e1) /\
    binary_round_aux prec emax s m e l = pack s m3 e3.
Proof.
  intros Hm. unfold binary_round_aux.
  pose proof (shr_fexp_spec m e l Hm) as H1.
  destruct (shr_fexp prec emax m e l) as [r1 e1].
  assert (H0 : 0 <= shr_m r1).
  { unfold shifted in H1.
    destruct (0 <? _) eqn:Hk; inversion H1 as [[E1 E2]].
    - apply Z.ltb_lt in Hk. rewrite E1. apply Z.div_pos; lia.
    - lia. }
  set (m2 := round_nearest_even (shr_m r1) (loc_of_shr_record r1)).
  assert (H2 : m2 = shr_m r1 \/ m2 = shr_m r1 + 1)
    by apply round_nearest_even_cases.
  assert (Hm2 : 0 <= m2) by lia.
  pose proof (shr_fexp_spec m2 e1 loc_Exact Hm2) as H3.
  destruct (shr_fexp prec emax m2 e1 loc_Exact) as [r3 e3].
  exists (shr_m r1), e1, m2, (shr_m r3), e3. repeat split; auto.
Qed.

Lemma shifted_digits m e k :
  0 <= m ->
  let '(m', e') := shifted m e k in
  0 <= m' /\
  ((k <= 0 /\ m' = m /\ e' = e /\ Zdigits2 m' = Zdigits2 m) \/
   (0 < k /\ e' = e + k /\ Zdigits2 m' = Z.max 0 (Zdigits2 m - k))).
Proof.
  intros Hm. unfold shifted. destruct (0 <? k) eqn:Hk.
  - apply Z.ltb_lt in Hk. split; [apply Z.div_pos; lia|]. right.
    repeat split; auto. destruct (Z.eq_dec m 0) as [->|E].
    + rewrite Z.div_0_l by lia. simpl. lia.
    + apply Zdigits2_div_pow2; lia.
  - apply Z.ltb_ge in Hk. split; [lia|]. left. auto.
Qed.

(** The digit counts along [binary_round_aux], ready for [lia]. *)
Ltac round_digits s m e l :=
  let m1 := fresh "m1" in let e1 := fresh "e1" in let m2 := fresh "m2" in
  let m3 := fresh "m3" in let e3 := fresh "e3" in
  let H1 := fresh "H1" in let H2 := fresh "H2" in let H3 := fresh "H3" in
  let S1 := fresh "S1" in let S2 := fresh "S2" in
  let P1 := fresh "P1" in let P2 := fresh "P2" in let P3 := fresh "P3" in
  destruct (binary_round_aux_spec s m e l ltac:(lia))
    as (m1 & e1 & m2 & m3 & e3 & H1 & H2 & H3 & ->);
  pose proof (shifted_digits m e (fexp prec emax (Zdigits2 m + e) - e)
                ltac:(lia)) as S1;
  rewrite <- H1 in S1; destruct S1 as [P1 S1];
  assert (P2 : 0 <= m2) by lia;
  pose proof (shifted_digits m2 e1 (fexp prec emax (Zdigits2 m2 + e1) - e1) P2)
    as S2;
  rewrite <- H3 in S2; destruct S2 as [P3 S2];
  assert (Zdigits2 m1 <= Zdigits2 m2 <= Zdigits2 m1 + 1)
    by (destruct H2 as [->| ->]; [lia|now apply Zdigits2_succ]);
  pose proof (Zdigits2_nonneg m3).

(** Rounding an aligned mantissa gives a valid binary64 float. *)
Lemma binary_round_aux_valid s m e l :
  0 < m -> e <= fexp prec emax (Zdigits2 m + e) ->
  valid_binary (binary_round_aux prec emax s m e l) = true.
Proof.
  intros Hm He. pose proof (Zdigits2_pos m Hm).
  round_digits s m e l.
  unfold pack. destruct m3 as [|p|p]; auto.
  destruct (e3 <=? emax - prec) eqn:Hb; auto.
  simpl. unfold bounded, canonical_mantissa. rewrite Hb, andb_true_r.
  apply Z.eqb_eq. change (Z.pos (digits2_pos p)) with (Zdigits2 (Z.pos p)).
  pose proof (Zdigits2_pos (Z.pos p) ltac:(lia)).
  rewrite fexp64 in *. lia.
Qed.

(** Rounding a positive value that is at least one gives a float that is
    at least one. *)
Lemma binary_round_aux_at_least_one m e l :
  0 < m -> 1 <= Zdigits2 m + e ->
  at_least_one (binary_round_aux prec emax false m e l).
Proof.
  intros Hm He. pose proof (Zdigits2_pos m Hm).
  round_digits false m e l.
  rewrite fexp64 in *.
  assert (D3 : 1 <= Zdigits2 m3 + e3 /\ 0 < Zdigits2 m3) by lia.
  unfold pack. destruct m3 as [|p|p]; [simpl in D3; lia| |lia].
  destruct (e3 <=? emax - prec); unfold at_least_one; auto.
  change (Z.pos (digits2_pos p)) with (Zdigits2 (Z.pos p)). lia.
Qed.

Lemma shl_align_fexp_spec m e :
  let '(mz, ez) := shl_align m e (fexp prec emax (Z.pos (digits2_pos m) + e)) in
  Z.pos (digits2_pos mz) + ez = Z.pos (digits2_pos m) + e /\
  ez <= fexp prec emax (Z.pos (digits2_pos mz) + ez).
Proof.
  unfold shl_align.
  destruct (fexp prec emax (Z.pos (digits2_pos m) + e) - e) as [|d|d] eqn:E.
  - split; lia.
  - split; lia.
  - rewrite digits2_pos_iter_xO.
    replace (Z.pos (digits2_pos m) + Z.pos d
             + fexp prec emax (Z.pos (digits2_pos m) + e))
      with (Z.pos (digits2_pos m) + e) by lia.
    split; lia.
Qed.

Lemma binary_round_valid s m e :
  valid_binary (binary_round prec emax s m e) = true.
Proof.
  unfold binary_round. pose proof (shl_align_fexp_spec m e) as H.
  destruct (shl_align _ _ _) as [mz ez]. destruct H as [_ H].
  apply binary_round_aux_valid; [lia|exact H].
Qed.

Lemma binary_round_at_least_one m e :
  1 <= Z.pos (digits2_pos m) + e ->
  at_least_one (binary_round prec emax false m e).
Proof.
  intros Hm. unfold binary_round. pose proof (shl_align_fexp_spec m e) as H.
  destruct (shl_align _ _ _) as [mz ez]. destruct H as [H _].
  apply binary_round_aux_at_least_one; [lia|]. simpl Zdigits2. lia.
Qed.

Lemma SFmul_at_least_one x y :
  at_least_one x -> at_least_one y -> at_least_one (SFmul prec emax x y).
Proof.
  destruct x as [sx|[|]| |[|] mx ex]; cbn [at_least_one]; try tauto;
  destruct y as [sy|[|]| |[|] my ey]; cbn [at_least_one SFmul xorb]; try tauto.
  intros Hx Hy. apply binary_round_aux_at_least_one; [lia|].
  rewrite Zdigits2_log2 by lia.
  pose proof (Z.log2_mul_below (Z.pos mx) (Z.pos my) ltac:(lia) ltac:(lia)) as H.
  change (Z.pos (digits2_pos mx)) with (Zdigits2 (Z.pos mx)) in Hx.
  change (Z.pos (digits2_pos my)) with (Zdigits2 (Z.pos my)) in Hy.
  rewrite Zdigits2_log2 in Hx, Hy by lia.
  rewrite Pos2Z.inj_mul. lia.
Qed.

Lemma SFleb_1_3_at_least_one y :
  valid_binary y = true ->
  SFleb (Prim2SF 1.3%float) y = true -> at_least_one y.
Proof.
  intros Hv.
  change (Prim2SF 1.3%float) with (S754_finite false 5854679515581645 (-52)).
  destruct y as [sy|[|]| |[|] my ey]; cbn [at_least_one]; try discriminate; auto.
  unfold SFleb, SFcompare. simpl in Hv. unfold bounded, canonical_mantissa in Hv.
  apply andb_prop in Hv. destruct Hv as [Hv _]. apply Z.eqb_eq in Hv.
  rewrite fexp64 in Hv.
  destruct (Z.compare_spec (-52) ey); try discriminate; intros _; lia.
Qed.

(** *** Consequences for the primitive floats *)

Lemma binary_normalize_valid n :
  valid_binary (binary_normalize prec emax n 0 false) = true.
Proof. destruct n; simpl; auto using binary_round_valid. Qed.

Lemma float_of_int_spec n x :
  float_of_int n = Ok x -> Prim2SF x = binary_normalize prec emax n 0 false.
Proof.
  unfold float_of_int. pose proof (binary_normalize_valid n) as Hv.
  set (s := binary_normalize prec emax n 0 false) in *. intros Hx.
  assert (x = SF2Prim s) as -> by (destruct s; congruence).
  now apply Prim2SF_SF2Prim.
Qed.

Lemma float_of_int_at_least_one n x :
  1 <= n -> float_of_int n = Ok x -> at_least_one (Prim2SF x).
Proof.
  intros Hn Hx. rewrite (float_of_int_spec n x Hx).
  destruct n as [|p|p]; try lia. simpl.
  apply binary_round_at_least_one. pose proof (Zdigits2_pos (Z.pos p)). simpl in *. lia.
Qed.

Lemma leb_1_3_at_least_one y :
  (1.3 <=? y)%float = true -> at_least_one (Prim2SF y).
Proof.
  rewrite leb_spec. apply SFleb_1_3_at_least_one, Prim2SF_valid.
Qed.

Lemma mul_at_least_one x y :
  at_least_one (Prim2SF x) -> at_least_one (Prim2SF y) ->
  at_least_one (Prim2SF (x * y)%float).
Proof. rewrite mul_spec. apply SFmul_at_least_one. Qed.

(** [round_half_even m e] is an integer nearest to [m * 2^e]; when two
    integers are equally near, it is the even one. *)
Lemma round_half_even_nearest m e :
  let r := round_half_even m e in
  (0 <= e -> r = Z.pos m * 2 ^ e) /\
  (e < 0 ->
   Z.abs (2 * (r * 2 ^ (- e) - Z.pos m)) <= 2 ^ (- e) /\
   (Z.abs (2 * (r * 2 ^ (- e) - Z.pos m)) = 2 ^ (- e) -> Z.even r = true)).
Proof.
  destruct e as [|p|p]; simpl round_half_even; (split; [intros H|intros H]);
    try lia.
  change (- Z.neg p) with (Z.pos p).
  assert (HP : 0 < 2 ^ Z.pos p) by (apply Z.pow_pos_nonneg; lia).
  pose proof (Z.div_mod (Z.pos m) (2 ^ Z.pos p) ltac:(lia)) as Hdm.
  pose proof (Z.mod_pos_bound (Z.pos m) (2 ^ Z.pos p) HP) as Hb.
  set (P := 2 ^ Z.pos p) in *. set (q := Z.pos m / P) in *.
  set (rr := Z.pos m mod P) in *.
  destruct (Z.compare_spec (2 * rr) P) as [E|E|E].
  - destruct (Z.even q) eqn:Ev.
    + split; [nia|auto].
    + split; [nia|]. intros _. rewrite Z.even_add, Ev. reflexivity.
  - split; [nia|]. nia.
  - split; [nia|]. nia.
Qed.

Lemma round_half_even_at_least_one m e :
  1 <= Z.pos (digits2_pos m) + e -> 1 <= round_half_even m e.
Proof.
  intros H. destruct e as [|p|p]; simpl round_half_even.
  - lia.
  - assert (0 < 2 ^ Z.pos p) by (apply Z.pow_pos_nonneg; lia). nia.
  - assert (Hp : 0 < 2 ^ Z.pos p) by (apply Z.pow_pos_nonneg; lia).
    assert (Hq : 1 <= Z.pos m / 2 ^ Z.pos p).
    { apply Z.div_le_lower_bound; [lia|]. rewrite Z.mul_1_r.
      change (Z.pos (digits2_pos m)) with (Zdigits2 (Z.pos m)) in H.
      rewrite Zdigits2_log2 in H by lia.
      transitivity (2 ^ Z.log2 (Z.pos m)).
      - apply Z.pow_le_mono_r; lia.
      - apply Z.log2_spec. lia. }
    destruct (_ ?= _); [destruct (Z.even _)| |]; lia.
Qed.

Lemma py_round_at_least_one x :
  at_least_one (Prim2SF x) ->
  py_round x = Raise OverflowError \/ exists r, py_round x = Ok r /\ 1 <= r.
Proof.
  unfold py_round.
  destruct (Prim2SF x) as [s|[|]| |[|] m e]; cbn [at_least_one]; try tauto.
  intros H. right. eexists; split; [reflexivity|].
  now apply round_half_even_at_least_one.
Qed.

(** [max(1.3, x)] is never below 1.3, whatever [x] is (a NaN included). *)
Lemma py_max_1_3 x : (1.3 <=? py_max 1.3 x)%float = true.
Proof.
  unfold py_max. destruct (1.3 <? x)%float eqn:E; [|reflexivity].
  rewrite ltb_spec in E. rewrite leb_spec.
  unfold SFltb in E. unfold SFleb.
  destruct (SFcompare _ _) as [[| |]|]; congruence.
Qed.

End PyFloatFacts.

(** ** The calendar and ISO dates *)

Module PyDateFacts.

(** An ordinal is a year and a day number within that year. *)
Lemma ord2ymd_year_day o :
  1 <= o <= MAXORDINAL ->
  exists y n,
    1 <= y <= 9999 /\ 0 <= n < year_length y /\
    days_before_year y + n = o - 1 /\
    ord2ymd o = (y, fst (month_day (is_leap y) n), snd (month_day (is_leap y) n)).
Proof.
  intros Ho. unfold ord2ymd, MAXORDINAL, DI400Y, DI100Y, DI4Y in *.
  set (N := o - 1).
  set (q400 := N / 146097). set (r400 := N mod 146097).
  set (q100 := r400 / 36524). set (r100 := r400 mod 36524).
  set (q4 := r100 / 1461). set (r4 := r100 mod 1461).
  set (q1 := r4 / 365). set (r1 := r4 mod 365).
  assert (E400 : N = 146097 * q400 + r400 /\ 0 <= r400 < 146097).
  { unfold q400, r400. split; [apply Z.div_mod; lia|apply Z.mod_pos_bound; lia]. }
  assert (E100 : r400 = 36524 * q100 + r100 /\ 0 <= r100 < 36524).
  { unfold q100, r100. split; [apply Z.div_mod; lia|apply Z.mod_pos_bound; lia]. }
  assert (E4 : r100 = 1461 * q4 + r4 /\ 0 <= r4 < 1461).
  { unfold q4, r4. split; [apply Z.div_mod; lia|apply Z.mod_pos_bound; lia]. }
  assert (E1 : r4 = 365 * q1 + r1 /\ 0 <= r1 < 365).
  { unfold q1, r1. split; [apply Z.div_mod; lia|apply Z.mod_pos_bound; lia]. }
  clearbody q400 r400 q100 r100 q4 r4 q1 r1.
  assert (0 <= N <= 3652058) by lia. clearbody N.
  destruct ((q1 =? 4) || (q100 =? 4)) eqn:Hs.
  - exists (q400 * 400 + 1 + q100 * 100 + q4 * 4 + q1 - 1), 365.
    apply orb_true_iff in Hs. rewrite !Z.eqb_eq in Hs.
    set (y := q400 * 400 + 1 + q100 * 100 + q4 * 4 + q1 - 1).
    assert (Hl : is_leap y = true).
    { unfold is_leap. apply andb_true_iff. split.
      - apply Z.eqb_eq. unfold y. Z.div_mod_to_equations. lia.
      - apply orb_true_iff. rewrite negb_true_iff, Z.eqb_neq, Z.eqb_eq.
        unfold y. Z.div_mod_to_equations. lia. }
    unfold year_length. rewrite Hl.
    split; [unfold y; lia|]. split; [lia|]. split.
    + unfold days_before_year, y. Z.div_mod_to_equations. lia.
    + reflexivity.
  - exists (q400 * 400 + 1 + q100 * 100 + q4 * 4 + q1), r1.
    apply orb_false_iff in Hs. rewrite !Z.eqb_neq in Hs.
    set (y := q400 * 400 + 1 + q100 * 100 + q4 * 4 + q1).
    assert (Hl : is_leap y = (q1 =? 3) && (negb (q4 =? 24) || (q100 =? 3))).
    { unfold is_leap, y.
      destruct (q1 =? 3) eqn:A1; destruct (q4 =? 24) eqn:A4;
        destruct (q100 =? 3) eqn:A100;
        rewrite ?Z.eqb_eq, ?Z.eqb_neq in *; simpl;
        rewrite ?andb_true_iff, ?andb_false_iff, ?orb_true_iff, ?orb_false_iff,
          ?negb_true_iff, ?negb_false_iff, ?Z.eqb_eq, ?Z.eqb_neq;
        Z.div_mod_to_equations; lia. }
    unfold year_length.
    split; [unfold y; lia|]. split.
    { rewrite Hl. destruct (_ && _); lia. }
    split.
    + unfold days_before_year, y. Z.div_mod_to_equations. lia.
    + rewrite Hl. unfold month_day.
      destruct (_ <? _); reflexivity.
Qed.

Lemma days_before_year_succ y :
  days_before_year (y + 1) = days_before_year y + year_length y.
Proof.
  unfold days_before_year, year_length, is_leap.
  destruct (y mod 4 =? 0) eqn:A4; destruct (y mod 100 =? 0) eqn:A100;
    destruct (y mod 400 =? 0) eqn:A400;
    rewrite ?Z.eqb_eq, ?Z.eqb_neq in *; simpl;
    Z.div_mod_to_equations; lia.
Qed.

Lemma days_before_year_mono a b :
  a <= b -> days_before_year a <= days_before_year b.
Proof.
  intros H. unfold days_before_year. Z.div_mod_to_equations. lia.
Qed.

Lemma md_ok_all (leap : bool) n :
  0 <= n < (if leap then 366 else 365) -> md_ok leap n = true.
Proof.
  intros Hn.
  assert (H : forallb (md_ok leap) (map Z.of_nat (seq 0 (if leap then 366 else 365))) = true).
  { destruct leap; vm_compute; reflexivity. }
  rewrite forallb_forall in H. apply H.
  apply in_map_iff. exists (Z.to_nat n). split; [lia|].
  apply in_seq. destruct leap; lia.
Qed.

Lemma month_day_range (leap : bool) n :
  0 <= n < (if leap then 366 else 365) ->
  1 <= fst (month_day leap n) <= 12 /\ 1 <= snd (month_day leap n) <= 31.
Proof.
  intros Hn. pose proof (md_ok_all leap n Hn) as H. unfold md_ok in H.
  destruct (month_day leap n) as [m d]. simpl.
  rewrite !andb_true_iff in H. lia.
Qed.

Lemma month_day_mono (leap : bool) n n' :
  0 <= n -> n < n' -> n' < (if leap then 366 else 365) ->
  md_code (month_day leap n) < md_code (month_day leap n').
Proof.
  intros Hn Hlt Hn'.
  assert (Hk : forall k, (0 <= k)%nat ->
    n + 1 + Z.of_nat k < (if leap then 366 else 365) ->
    md_code (month_day leap n) < md_code (month_day leap (n + 1 + Z.of_nat k))).
  { induction k as [|k IH]; intros _ Hb.
    - assert (H : md_ok leap n = true) by (apply md_ok_all; lia).
      unfold md_ok in H.
      destruct (month_day leap n) as [m d].
      rewrite !andb_true_iff, orb_true_iff in H.
      replace (n + 1 + Z.of_nat 0) with (n + 1) in * by lia. lia.
    - specialize (IH ltac:(lia) ltac:(lia)).
      assert (H : md_ok leap (n + 1 + Z.of_nat k) = true)
        by (apply md_ok_all; lia).
      unfold md_ok in H.
      destruct (month_day leap (n + 1 + Z.of_nat k)) as [m d].
      rewrite !andb_true_iff, orb_true_iff in H.
      replace (n + 1 + Z.of_nat (S k)) with (n + 1 + Z.of_nat k + 1) in * by lia.
      lia. }
  specialize (Hk (Z.to_nat (n' - n - 1)) ltac:(lia)).
  replace (n + 1 + Z.of_nat (Z.to_nat (n' - n - 1))) with n' in Hk by lia.
  apply Hk. lia.
Qed.

Lemma ord2ymd_range o :
  valid_date o ->
  let '(y, m, d) := ord2ymd o in
  1 <= y <= 9999 /\ 1 <= m <= 12 /\ 1 <= d <= 31.
Proof.
  intros Ho. destruct (ord2ymd_year_day o Ho) as (y & n & Hy & Hn & _ & ->).
  unfold year_length in Hn.
  pose proof (month_day_range (is_leap y) n) as H.
  destruct (is_leap y); specialize (H Hn); lia.
Qed.

Lemma ord2ymd_lt o1 o2 :
  valid_date o1 -> valid_date o2 -> o1 < o2 ->
  ymd_compare (ord2ymd o1) (ord2ymd o2) = Lt.
Proof.
  intros H1 H2 Hlt.
  destruct (ord2ymd_year_day o1 H1) as (y1 & n1 & Hy1 & Hn1 & E1 & ->).
  destruct (ord2ymd_year_day o2 H2) as (y2 & n2 & Hy2 & Hn2 & E2 & ->).
  unfold ymd_compare.
  destruct (Z.compare_spec y1 y2) as [->|Hy|Hy]; auto.
  - unfold year_length in *. set (l := is_leap y2) in *.
    assert (Hb : n2 < (if l then 366 else 365)) by (destruct l; lia).
    pose proof (month_day_mono l n1 n2 ltac:(lia) ltac:(lia) Hb) as Hm.
    assert (R1 : 0 <= n1 < (if l then 366 else 365)) by (destruct l; lia).
    assert (R2 : 0 <= n2 < (if l then 366 else 365)) by (destruct l; lia).
    apply month_day_range in R1, R2. unfold md_code in Hm.
    destruct (month_day l n1) as [m1 d1], (month_day l n2) as [m2 d2].
    simpl in *.
    destruct (Z.compare_spec m1 m2); try lia; [apply Z.compare_lt_iff; lia|].
    reflexivity.
  - exfalso.
    pose proof (days_before_year_mono (y2 + 1) y1 ltac:(lia)) as Hm.
    rewrite days_before_year_succ in Hm. lia.
Qed.

Lemma digit_compare a b :
  0 <= a <= 9 -> 0 <= b <= 9 -> Ascii.compare (digit a) (digit b) = (a ?= b).
Proof.
  intros Ha Hb. unfold Ascii.compare, digit.
  rewrite !N_ascii_embedding by lia.
  rewrite Z2N.inj_compare by lia. apply Z.add_compare_mono_l.
Qed.

Lemma fmt02_compare n1 n2 r1 r2 :
  0 <= n1 <= 99 -> 0 <= n2 <= 99 ->
  String.compare (fmt02 n1 r1) (fmt02 n2 r2) =
  match n1 ?= n2 with Eq => String.compare r1 r2 | c => c end.
Proof.
  intros H1 H2. unfold fmt02. simpl String.compare.
  rewrite !digit_compare by (Z.div_mod_to_equations; lia).
  destruct (Z.compare_spec (n1 / 10) (n2 / 10));
    destruct (Z.compare_spec (n1 mod 10) (n2 mod 10));
    destruct (Z.compare_spec n1 n2); try reflexivity;
    exfalso; Z.div_mod_to_equations; lia.
Qed.

Lemma fmt04_fmt02 n r :
  0 <= n <= 9999 -> fmt04 n r = fmt02 (n / 100) (fmt02 (n mod 100) r).
Proof.
  intros H. unfold fmt04, fmt02.
  replace (n / 100 / 10) with (n / 1000) by (Z.div_mod_to_equations; lia).
  replace (n mod 100 / 10) with (n / 10 mod 10) by (Z.div_mod_to_equations; lia).
  replace (n mod 100 mod 10) with (n mod 10) by (Z.div_mod_to_equations; lia).
  reflexivity.
Qed.

Lemma fmt04_compare n1 n2 r1 r2 :
  0 <= n1 <= 9999 -> 0 <= n2 <= 9999 ->
  String.compare (fmt04 n1 r1) (fmt04 n2 r2) =
  match n1 ?= n2 with Eq => String.compare r1 r2 | c => c end.
Proof.
  intros H1 H2. rewrite !fmt04_fmt02 by assumption.
  rewrite fmt02_compare by (Z.div_mod_to_equations; lia).
  destruct (Z.compare_spec (n1 / 100) (n2 / 100));
    [rewrite fmt02_compare by (Z.div_mod_to_equations; lia);
     destruct (Z.compare_spec (n1 mod 100) (n2 mod 100))|..];
    destruct (Z.compare_spec n1 n2); try reflexivity;
    exfalso; Z.div_mod_to_equations; lia.
Qed.

Lemma isoformat_compare_ymd o1 o2 :
  valid_date o1 -> valid_date o2 ->
  String.compare (isoformat o1) (isoformat o2) =
  ymd_compare (ord2ymd o1) (ord2ymd o2).
Proof.
  intros H1 H2. unfold isoformat, ymd_compare.
  pose proof (ord2ymd_range o1 H1) as R1.
  pose proof (ord2ymd_range o2 H2) as R2.
  destruct (ord2ymd o1) as [[y1 m1] d1]. destruct (ord2ymd o2) as [[y2 m2] d2].
  rewrite fmt04_compare by lia.
  destruct (y1 ?= y2); auto.
  change (String.compare (String "-" ?a) (String "-" ?b)) with (String.compare a b).
  rewrite fmt02_compare by lia.
  destruct (m1 ?= m2); auto.
  change (String.compare (String "-" ?a) (String "-" ?b)) with (String.compare a b).
  rewrite fmt02_compare by lia.
  destruct (d1 ?= d2); auto.
Qed.

Lemma string_compare_refl s : String.compare s s = Eq.
Proof.
  pose proof (String.compare_antisym s s) as H.
  destruct (String.compare s s); simpl in H; congruence.
Qed.

(** ISO dates are ordered as strings the way the dates are ordered. *)
Lemma isoformat_compare o1 o2 :
  valid_date o1 -> valid_date o2 ->
  String.compare (isoformat o1) (isoformat o2) = (o1 ?= o2).
Proof.
  intros H1 H2. destruct (Z.compare_spec o1 o2) as [->|Hlt|Hgt].
  - apply string_compare_refl.
  - rewrite isoformat_compare_ymd by assumption. now apply ord2ymd_lt.
  - rewrite String.compare_antisym, isoformat_compare_ymd by assumption.
    rewrite ord2ymd_lt by assumption. reflexivity.
Qed.

(** [<=] on ISO date strings is [<=] on the dates. *)
Lemma isoformat_le d t :
  valid_date d -> valid_date t ->
  PyStr.le (isoformat d) (isoformat t) = (d <=? t).
Proof.
  intros Hd Ht. unfold PyStr.le, String.leb. rewrite isoformat_compare by assumption.
  unfold Z.leb. now destruct (d ?= t).
Qed.

End PyDateFacts.

(** ** The scheduler *)

Module SchedulerFacts.

Import PyFloatFacts PyDateFacts.

Lemma timedelta_inv i j : timedelta i = Ok j -> j = i /\ Z.abs i <= 999999999.
Proof.
  unfold timedelta. destruct (Z.abs i <=? 999999999) eqn:E; [|discriminate].
  intros [= <-]. split; [reflexivity|lia].
Qed.

Lemma date_add_inv d k o :
  date_add d k = Ok o -> o = d + k /\ valid_date o.
Proof.
  unfold date_add, valid_date.
  destruct ((0 <? d + k) && (d + k <=? MAXORDINAL)) eqn:E; [|discriminate].
  intros [= <-]. apply andb_true_iff in E. lia.
Qed.

Lemma date_add_ok d k :
  valid_date (d + k) -> date_add d k = Ok (d + k).
Proof.
  unfold date_add, valid_date. intros H.
  destruct ((0 <? d + k) && (d + k <=? MAXORDINAL)) eqn:E; [reflexivity|].
  apply andb_false_iff in E. lia.
Qed.

(** What a successful update is made of. *)
Lemma schedule_inv today q c c' :
  schedule today q c = Ok c' ->
  exists reps i ef d,
    next_interval q c = Ok (reps, i) /\
    next_ease_factor q (ease_factor c) = Ok ef /\
    date_add today i = Ok d /\
    c' = mkCard (front c) (back c) (isoformat d) reps i ef.
Proof.
  unfold schedule.
  destruct (next_interval q c) as [[reps i]|e] eqn:E1; [|discriminate].
  simpl. destruct (next_ease_factor q (ease_factor c)) as [ef|e] eqn:E2;
    [|discriminate].
  simpl. destruct (timedelta i) as [j|e] eqn:Ej; [|discriminate].
  apply timedelta_inv in Ej as [-> _].
  simpl. destruct (date_add today i) as [d|e] eqn:E3; [|discriminate].
  simpl. intros [= <-]. now exists reps, i, ef, d.
Qed.

(** When the pieces succeed, so does the update. *)
Lemma schedule_ok today q c reps i ef :
  next_interval q c = Ok (reps, i) ->
  next_ease_factor q (ease_factor c) = Ok ef ->
  valid_date today -> valid_date (today + i) ->
  schedule today q c
  = Ok (mkCard (front c) (back c) (isoformat (today + i)) reps i ef).
Proof.
  intros H1 H2 H0 H3. unfold schedule. rewrite H1. simpl. rewrite H2. simpl.
  assert (Ht : timedelta i = Ok i).
  { unfold timedelta, valid_date, MAXORDINAL in *.
    destruct (Z.abs i <=? 999999999) eqn:E; [reflexivity|].
    apply Z.leb_gt in E. lia. }
  rewrite Ht. simpl. rewrite (date_add_ok _ _ H3). reflexivity.
Qed.

Lemma float_of_int_small :
  float_of_int 0 = Ok 0%float /\ float_of_int 1 = Ok 1%float /\
  float_of_int 2 = Ok 2%float /\ float_of_int 5 = Ok 5%float.
Proof. repeat split. Qed.

(** For the four scores the ease factor update never raises. *)
Lemma next_ease_factor_total q ef :
  valid_score q -> exists ef', next_ease_factor q ef = Ok ef'.
Proof.
  destruct float_of_int_small as (F0 & F1 & F2 & F5).
  unfold next_ease_factor.
  intros [->|[->|[->| ->]]]; simpl (5 - _);
    rewrite ?F0, ?F1, ?F2, ?F5; simpl; eauto.
Qed.

(** The hard floor of the ease factor. *)
Lemma next_ease_factor_floor q ef ef' :
  next_ease_factor q ef = Ok ef' -> (1.3 <=? ef')%float = true.
Proof.
  unfold next_ease_factor. destruct (float_of_int (5 - q)); [|discriminate].
  simpl. intros [= <-]. apply py_max_1_3.
Qed.

(** The cases of lines 50-61. *)
Lemma next_interval_inv q c reps i :
  next_interval q c = Ok (reps, i) ->
  (q < 3 /\ reps = 0 /\ i = 1) \/
  (3 <= q /\ reps = repetitions c + 1 /\
   ((repetitions c = 0 /\ i = 1) \/
    (repetitions c = 1 /\ i = 6) \/
    (repetitions c <> 0 /\ repetitions c <> 1 /\
     exists x, float_of_int (interval c) = Ok x /\
               py_round (x * ease_factor c)%float = Ok i))).
Proof.
  unfold next_interval. destruct (q <? 3) eqn:Eq.
  - intros [= <- <-]. left. lia.
  - intros H. apply Z.ltb_ge in Eq. right. split; [lia|].
    destruct (repetitions c =? 0) eqn:E0; [|destruct (repetitions c =? 1) eqn:E1].
    + simpl in H. injection H as <- <-. split; [reflexivity|]. left. lia.
    + simpl in H. injection H as <- <-. split; [reflexivity|]. right. left. lia.
    + destruct (float_of_int (interval c)) as [x|e] eqn:Ex; [|discriminate].
      simpl in H.
      destruct (py_round (x * ease_factor c)%float) as [r|e] eqn:Er;
        [|discriminate].
      simpl in H. injection H as <- <-. split; [reflexivity|]. right. right.
      repeat split; try lia. eauto.
Qed.

Lemma next_interval_at_least_1 q c reps i :
  1 <= interval c -> (1.3 <=? ease_factor c)%float = true ->
  next_interval q c = Ok (reps, i) -> 1 <= i.
Proof.
  intros Hi He H. apply next_interval_inv in H.
  destruct H as [(_ & _ & ->)|(_ & _ & [[_ ->]|[[_ ->]|(_ & _ & x & Hx & Hr)]])];
    try lia.
  pose proof (float_of_int_at_least_one _ _ Hi Hx) as A1.
  pose proof (leb_1_3_at_least_one _ He) as A2.
  destruct (py_round_at_least_one _ (mul_at_least_one _ _ A1 A2))
    as [E|(r & E & Hr1)]; rewrite E in Hr; [discriminate|].
  injection Hr as <-. exact Hr1.
Qed.

(** One review preserves the card invariants. *)
Lemma schedule_card_inv today q c c' :
  card_inv c -> schedule today q c = Ok c' -> card_inv c'.
Proof.
  intros (He & Hi & Hr) H.
  apply schedule_inv in H as (reps & i & ef & d & H1 & H2 & _ & ->).
  unfold card_inv. simpl. split; [|split].
  - eapply next_ease_factor_floor; eauto.
  - eapply next_interval_at_least_1; eauto.
  - apply next_interval_inv in H1. destruct H1 as [(_ & -> & _)|(_ & -> & _)]; lia.
Qed.

End SchedulerFacts.

(** ** Selection, merge and session *)

Module SessionFacts.

Import PyFloatFacts PyDateFacts SchedulerFacts.

(** *** Due-card selection *)

Lemma select_due_In h today_iso deck l :
  In l (select_due h today_iso deck) <->
  In l deck /\ is_due today_iso (h !!! l) = true.
Proof. unfold select_due. apply filter_In. Qed.

Lemma select_due_sublist h today_iso deck :
  sublist (select_due h today_iso deck) deck.
Proof.
  unfold select_due. induction deck as [|l deck IH]; simpl.
  - constructor.
  - destruct (is_due today_iso (h !!! l)); now constructor.
Qed.

(** *** The lookup built from the updated cards *)

Lemma card_map_snoc h updated l :
  card_map h (updated ++ [l]) = <[key (h !!! l) := l]> (card_map h updated).
Proof. unfold card_map. now rewrite foldl_app. Qed.

Lemma card_map_lookup_Some h updated k u :
  card_map h updated !! k = Some u -> u ∈ updated /\ key (h !!! u) = k.
Proof.
  induction updated as [|l updated IH] using rev_ind.
  - unfold card_map. simpl. now rewrite lookup_empty.
  - rewrite card_map_snoc. intros H.
    apply lookup_insert_Some in H as [[<- <-]|[Hne H]].
    + split; [|reflexivity]. apply elem_of_app. right. now apply list_elem_of_singleton.
    + apply IH in H as [H1 H2]. split; [|assumption]. apply elem_of_app. now left.
Qed.

Lemma card_map_lookup_is_Some h updated l :
  l ∈ updated -> is_Some (card_map h updated !! key (h !!! l)).
Proof.
  induction updated as [|l' updated IH] using rev_ind.
  - intros H. now apply elem_of_nil in H.
  - rewrite card_map_snoc. intros H.
    destruct (decide (key (h !!! l') = key (h !!! l))) as [E|E].
    + rewrite E, lookup_insert_eq. eauto.
    + rewrite lookup_insert_ne by assumption. apply IH.
      apply elem_of_app in H as [H|H]; [assumption|].
      apply list_elem_of_singleton in H. congruence.
Qed.

Lemma card_map_ext h1 h2 updated :
  (forall l, l ∈ updated -> h1 !!! l = h2 !!! l) ->
  card_map h1 updated = card_map h2 updated.
Proof.
  induction updated as [|l updated IH] using rev_ind; intros H.
  - reflexivity.
  - rewrite !card_map_snoc, IH, H; [reflexivity| |].
    + apply elem_of_app. right. now apply list_elem_of_singleton.
    + intros l' Hl'. apply H. apply elem_of_app. now left.
Qed.

(** *** The merge *)

Lemma merge_steps h cm deck n :
  (n <= length deck)%nat ->
  foldl (merge_step h cm) deck (seq 0 n)
  = ((fun l => default l (cm !! key (h !!! l))) <$> take n deck) ++ drop n deck.
Proof.
  induction n as [|n IH]; intros Hn.
  - simpl. now rewrite drop_0.
  - rewrite seq_S, foldl_app, IH by lia. simpl.
    destruct (lookup_lt_is_Some_2 deck n ltac:(lia)) as [c Hc].
    assert (Hlen : length ((fun l => default l (cm !! key (h !!! l))) <$> take n deck) = n).
    { rewrite length_fmap, length_take. lia. }
    unfold merge_step.
    rewrite lookup_app_r by lia. rewrite Hlen, Nat.sub_diag, lookup_drop, Nat.add_0_r, Hc.
    rewrite (take_S_r _ _ _ Hc), fmap_app, <- app_assoc. simpl.
    rewrite (drop_S _ _ _ Hc).
    destruct (cm !! key (h !!! c)) as [u|]; simpl; [|reflexivity].
    rewrite insert_app_r_alt by lia. now rewrite Hlen, Nat.sub_diag.
Qed.

(** The in-place loop replaces each card by its image under [merged]. *)
Lemma merge_fmap h updated deck :
  merge h updated deck = merged h updated <$> deck.
Proof.
  unfold merge. rewrite merge_steps by lia.
  now rewrite firstn_all, drop_all, app_nil_r.
Qed.

Lemma merged_key h updated l :
  key (h !!! merged h updated l) = key (h !!! l).
Proof.
  unfold merged. destruct (card_map h updated !! key (h !!! l)) as [u|] eqn:E.
  - simpl. now apply card_map_lookup_Some in E.
  - reflexivity.
Qed.

Lemma merged_idemp h updated l :
  merged h updated (merged h updated l) = merged h updated l.
Proof.
  unfold merged at 1. rewrite merged_key. fold (merged h updated l).
  unfold merged. now destruct (card_map h updated !! key (h !!! l)).
Qed.

Lemma merge_cards_fmap updated_cards deck :
  merge_cards updated_cards deck = replacement updated_cards <$> deck.
Proof.
  unfold merge_cards, save_deck. rewrite merge_fmap, <- list_fmap_compose.
  apply list_eq. intros j. rewrite !list_lookup_fmap.
  destruct (deck !! j) as [c|] eqn:Hc.
  - assert (Hj : (j < length deck)%nat) by (eapply lookup_lt_Some; eauto).
    rewrite lookup_seq_lt by assumption. simpl. f_equal.
    unfold merged, replacement.
    rewrite (card_map_ext (updated_cards ++ deck) updated_cards).
    2:{ intros l Hl. apply elem_of_seq in Hl. apply lookup_total_app_l. lia. }
    assert (Hk : (updated_cards ++ deck) !!! (length updated_cards + j)%nat = c).
    { rewrite lookup_total_app_r by lia.
      replace (length updated_cards + j - length updated_cards)%nat with j by lia.
      now apply list_lookup_total_correct. }
    rewrite Hk.
    destruct (card_map updated_cards _ !! key c) as [u|] eqn:E; simpl.
    + apply card_map_lookup_Some in E as [E _]. apply elem_of_seq in E.
      apply lookup_total_app_l. lia.
    + exact Hk.
  - rewrite lookup_seq_ge; [reflexivity|].
    apply lookup_ge_None in Hc. lia.
Qed.

Lemma replacement_idemp updated_cards c :
  replacement updated_cards (replacement updated_cards c)
  = replacement updated_cards c.
Proof.
  unfold replacement at 2.
  destruct (card_map updated_cards _ !! key c) as [u|] eqn:E; [|reflexivity].
  unfold replacement.
  pose proof (card_map_lookup_Some _ _ _ _ E) as [_ Hk].
  now rewrite Hk, E.
Qed.

(** *** The review loop *)

Lemma input_raises stdin e rest :
  input stdin = (Raise e, rest) -> cancellation e.
Proof.
  unfold cancellation. destruct stdin as [|[s|] stdin]; simpl; intros [= <- _]; auto.
Qed.

Lemma read_quality_raises stdin e rest :
  read_quality stdin = (Raise e, rest) -> cancellation e.
Proof.
  unfold cancellation. induction stdin as [|[s|] stdin IH]; simpl.
  - intros [= <- _]; auto.
  - destruct (QUALITY_MAP (PyStr.strip s)); [discriminate|exact IH].
  - intros [= <- _]; auto.
Qed.

Lemma QUALITY_MAP_valid k q : QUALITY_MAP k = Some q -> valid_score q.
Proof.
  unfold QUALITY_MAP, valid_score.
  repeat (destruct (String.eqb k _); [intros [= <-]; lia|]). discriminate.
Qed.

Lemma read_quality_valid stdin q rest :
  read_quality stdin = (Ok q, rest) -> valid_score q.
Proof.
  induction stdin as [|[s|] stdin IH]; simpl; try discriminate.
  destruct (QUALITY_MAP (PyStr.strip s)) as [q'|] eqn:E; [|exact IH].
  intros [= <- _]. eapply QUALITY_MAP_valid; eauto.
Qed.


(** The loop reviews the due cards in order, as long as the user gives
    scores; it stops at the first cancelled prompt. *)
Lemma review_loop_spec today due :
  forall h updated stdin,
  NoDup due ->
  (forall l, l ∈ due -> (l < length h)%nat) ->
  (forall j l q, due !! j = Some l ->
     ratings (length due) stdin !! j = Some q ->
     exists c', schedule today q (h !!! l) = Ok c') ->
  exists e h',
    review_loop today due h updated stdin
    = (e, h', updated ++ take (length (ratings (length due) stdin)) due) /\
    (length (ratings (length due) stdin) = length due -> e = None) /\
    ((length (ratings (length due) stdin) < length due)%nat ->
     exists x, e = Some x /\ cancellation x) /\
    length h' = length h /\
    (forall j l q, due !! j = Some l ->
       ratings (length due) stdin !! j = Some q ->
       schedule today q (h !!! l) = Ok (h' !!! l)) /\
    (forall l, l ∉ take (length (ratings (length due) stdin)) due ->
       h' !!! l = h !!! l).
Proof.
  induction due as [|card due IH]; intros h updated stdin Hnd Hlt Hok.
  - exists None, h. simpl. rewrite app_nil_r. repeat split; auto; try lia.
    intros j l q Hj. now rewrite lookup_nil in Hj.
  - simpl.
    destruct (input stdin) as [[s|e] stdin1] eqn:Ei.
    2:{ exists (Some e), h. simpl. rewrite app_nil_r.
        repeat split; auto; try discriminate.
        intros _. exists e. split; [reflexivity|]. eapply input_raises; eauto. }
    unfold review_card.
    destruct (read_quality stdin1) as [[q|e] stdin2] eqn:Er.
    2:{ exists (Some e), h. simpl. rewrite app_nil_r.
        repeat split; auto; try discriminate.
        intros _. exists e. split; [reflexivity|].
        eapply read_quality_raises; eauto. }
    assert (Hr0 : ratings (S (length due)) stdin = q :: ratings (length due) stdin2).
    { simpl. now rewrite Ei, Er. }
    destruct (Hok 0%nat card q) as [c' Hc'].
    { reflexivity. } { simpl in *. now rewrite Ei, Er. }
    rewrite Hc'.
    apply NoDup_cons in Hnd as [Hcard Hnd].
    assert (Hcl : (card < length h)%nat) by (apply Hlt; left).
    assert (Hother : forall l, l ∈ due -> <[card:=c']> h !!! l = h !!! l).
    { intros l Hl. apply list_lookup_total_insert_ne. congruence. }
    destruct (IH (<[card:=c']> h) (updated ++ [card]) stdin2 Hnd)
      as (e & h' & Hloop & Hdone & Hcancel & Hlen & Hupd & Hsame).
    { intros l Hl. rewrite length_insert. apply Hlt. now right. }
    { intros j l q' Hj Hq'. rewrite Hother by (eapply list_elem_of_lookup_2; eauto).
      apply (Hok (S j) l q'); [exact Hj|]. simpl in *. now rewrite Ei, Er. }
    exists e, h'. simpl. rewrite <- app_assoc in Hloop. simpl in Hloop.
    split; [exact Hloop|]. split; [intros; apply Hdone; lia|].
    split; [intros; apply Hcancel; lia|].
    split; [now rewrite Hlen, length_insert|]. split.
    + intros [|j] l q' Hj Hq'; simpl in Hj, Hq'.
      * injection Hj as <-. injection Hq' as <-.
        rewrite Hsame.
        -- now rewrite list_lookup_total_insert_eq.
        -- intros Hin. apply Hcard. apply elem_of_take in Hin as (i & Hi & _).
           eapply list_elem_of_lookup_2; eauto.
      * rewrite <- (Hother l) by (eapply list_elem_of_lookup_2; eauto).
        now apply (Hupd j).
    + intros l Hl. apply not_elem_of_cons in Hl as [Hne Hl].
      rewrite Hsame by assumption. now apply list_lookup_total_insert_ne.
Qed.

(** *** The session *)

Lemma select_due_seq h today_iso n :
  NoDup (select_due h today_iso (seq 0 n)) /\
  forall l, l ∈ select_due h today_iso (seq 0 n) -> (l < n)%nat.
Proof.
  split.
  - unfold select_due.
    apply NoDup_ListNoDup, List.NoDup_filter, NoDup_ListNoDup, NoDup_seq.
  - intros l Hl. apply list_elem_of_In, select_due_In in Hl as [Hl _].
    apply in_seq in Hl. lia.
Qed.

Lemma key_inj stored u l :
  NoDup (key <$> stored) ->
  (u < length stored)%nat -> (l < length stored)%nat ->
  key (stored !!! u) = key (stored !!! l) -> u = l.
Proof.
  intros Hnd Hu Hl Hk.
  eapply NoDup_lookup; [exact Hnd| |].
  - rewrite list_lookup_fmap, (list_lookup_lookup_total_lt stored u Hu). reflexivity.
  - rewrite list_lookup_fmap, (list_lookup_lookup_total_lt stored l Hl). simpl.
    now rewrite Hk.
Qed.

Lemma schedule_key today q c c' : schedule today q c = Ok c' -> key c' = key c.
Proof.
  intros H. apply schedule_inv in H as (reps & i & ef & d & _ & _ & _ & ->).
  reflexivity.
Qed.

(** A session with at least one due card runs the review loop and acts
    on the way it ended. *)
Lemma run_review_session_due today shuffle stored stdin :
  select_due stored (isoformat today) (seq 0 (length stored)) <> [] ->
  run_review_session today shuffle stored stdin
  = match
      review_loop today
        (shuffle (select_due stored (isoformat today) (seq 0 (length stored))))
        stored [] stdin
    with
    | (None, h, updated_cards) =>
        Completed (save_deck h (merge h updated_cards (seq 0 (length stored))))
    | (Some KeyboardInterrupt, h, updated_cards)
    | (Some EOFError, h, updated_cards) =>
        Interrupted (save_deck h (merge h updated_cards (seq 0 (length stored))))
    | (Some e, _, _) => Uncaught e
    end.
Proof.
  intros Hdue. unfold run_review_session.
  destruct stored as [|c0 stored']; [now elim Hdue|].
  destruct (select_due _ _ _); [now elim Hdue|reflexivity].
Qed.

End SessionFacts.

Import PyFloatFacts PyDateFacts SchedulerFacts SessionFacts.

(** ** The claims of the specification *)

(** C1: a review with a valid score of at least 3 sets the interval to 1
    when [repetitions] was 0, to 6 when it was 1, and to
    [round(interval * ease_factor)] otherwise; [repetitions] grows by
    exactly 1. *)
Theorem review_success_interval today q c c' :
  valid_score q -> 3 <= q -> schedule today q c = Ok c' ->
  repetitions c' = repetitions c + 1 /\
  (repetitions c = 0 -> interval c' = 1) /\
  (repetitions c = 1 -> interval c' = 6) /\
  (repetitions c <> 0 -> repetitions c <> 1 ->
   exists x, float_of_int (interval c) = Ok x /\
             py_round (x * ease_factor c)%float = Ok (interval c')).
Proof.
  intros _ Hq H.
  apply schedule_inv in H as (reps & i & ef & d & H1 & _ & _ & ->). simpl.
  apply next_interval_inv in H1.
  destruct H1 as [(Hlt & _)|(_ & -> & [[E ->]|[[E ->]|(N0 & N1 & x & Hx & Hr)]])];
    [lia|..]; repeat split; try lia; eauto.
Qed.

(** The "Easy" scenario of the specification: interval 6 and ease factor
    2.5 give [round(6 * 2.5) = 15], and 2 repetitions become 3. *)
Lemma review_success_interval_witness :
  (valid_score 5 /\ 3 <= 5 /\
   schedule new_year_2024 5 easy_card = Ok easy_card_reviewed) /\
  repetitions easy_card_reviewed = 3 /\ interval easy_card_reviewed = 15.
Proof.
  assert (Hv : valid_score 5) by (right; right; right; reflexivity).
  assert (Hq : 3 <= 5) by lia.
  assert (Hs : schedule new_year_2024 5 easy_card = Ok easy_card_reviewed)
    by (vm_compute; reflexivity).
  split; [auto|].
  destruct (review_success_interval new_year_2024 5 easy_card
              easy_card_reviewed Hv Hq Hs) as (Hr & _ & _ & Hi).
  split; [exact Hr|]. reflexivity.
Defined.

(** C2: a review with a valid score below 3 resets [repetitions] to 0 and
    the interval to 1, whatever the card was; it succeeds on every day
    but the last day of the calendar. *)
Theorem review_failure_resets today q c :
  valid_score q -> q < 3 ->
  (forall c', schedule today q c = Ok c' ->
              repetitions c' = 0 /\ interval c' = 1) /\
  (valid_date today -> today < MAXORDINAL ->
   exists c', schedule today q c = Ok c').
Proof.
  intros Hv Hq. split.
  - intros c' H.
    apply schedule_inv in H as (reps & i & ef & d & H1 & _ & _ & ->). simpl.
    apply next_interval_inv in H1. destruct H1 as [(_ & -> & ->)|(Hge & _)]; lia.
  - intros Ht Hm.
    destruct (next_ease_factor_total q (ease_factor c) Hv) as [ef He].
    eexists. apply schedule_ok; [|exact He|exact Ht|].
    + unfold next_interval. apply Z.ltb_lt in Hq. rewrite Hq. reflexivity.
    + unfold valid_date in *. lia.
Qed.

(** The "Again" scenario of the specification. *)
Lemma review_failure_resets_witness :
  (valid_score 0 /\ 0 < 3) /\
  repetitions again_card_reviewed = 0 /\ interval again_card_reviewed = 1.
Proof.
  assert (Hv : valid_score 0) by (left; reflexivity).
  assert (Hq : 0 < 3) by lia.
  split; [auto|].
  apply (proj1 (review_failure_resets new_year_2024 0 again_card Hv Hq)).
  vm_compute. reflexivity.
Defined.

(** C3: the card invariants ([ease_factor >= 1.3], [interval >= 1],
    [repetitions >= 0]) are preserved by every review with a valid score,
    hence by any sequence of reviews. *)
Theorem invariants_preserved reviews c c' :
  card_inv c ->
  Forall (fun r => valid_score (snd r)) reviews ->
  review_seq reviews c = Ok c' ->
  card_inv c'.
Proof.
  intros Hc Hv. revert c Hc.
  induction Hv as [|[today q] reviews _ _ IH]; intros c Hc; simpl.
  - now intros [= <-].
  - destruct (schedule today q c) as [c1|e] eqn:E1; [|discriminate].
    simpl. apply IH. eapply schedule_card_inv; eauto.
Qed.

Lemma invariants_preserved_witness :
  (card_inv (new_card new_year_2024 "front" "back") /\
   Forall (fun r => valid_score (snd r)) three_reviews /\
   review_seq three_reviews (new_card new_year_2024 "front" "back")
   = Ok after_three_reviews) /\
  card_inv after_three_reviews.
Proof.
  assert (Hc : card_inv (new_card new_year_2024 "front" "back")).
  { split; [reflexivity|split; simpl; lia]. }
  assert (Hv : Forall (fun r => valid_score (snd r)) three_reviews).
  { unfold three_reviews, valid_score.
    repeat (constructor; [simpl; lia|]). constructor. }
  assert (Hs : review_seq three_reviews (new_card new_year_2024 "front" "back")
               = Ok after_three_reviews) by (vm_compute; reflexivity).
  split; [auto|].
  exact (invariants_preserved three_reviews _ _ Hc Hv Hs).
Defined.

(** C4: due-card selection returns exactly the cards of the deck whose
    [next_review_date] is [<=] today's ISO date as strings, in deck
    order; for a card dated [d] this is the case exactly when [d] is
    today or earlier: a card dated today or before today is due, a card
    dated after today is not. *)
Theorem due_selection h today deck :
  valid_date today ->
  (forall l, In l (select_due h (isoformat today) deck) <->
             In l deck /\
             PyStr.le (next_review_date (h !!! l)) (isoformat today) = true) /\
  sublist (select_due h (isoformat today) deck) deck /\
  (forall l d, In l deck -> valid_date d ->
               next_review_date (h !!! l) = isoformat d ->
               (In l (select_due h (isoformat today) deck) <-> d <= today)).
Proof.
  intros Ht. split; [|split].
  - intros l. apply select_due_In.
  - apply select_due_sublist.
  - intros l d Hl Hd Hiso. rewrite select_due_In. unfold is_due.
    rewrite Hiso, isoformat_le by assumption. rewrite Z.leb_le. tauto.
Qed.

(** In [dated_deck] on 2024-01-01: the card dated that day is due, the
    card dated the next day is not. *)
Lemma due_selection_witness :
  valid_date new_year_2024 /\
  (In 1%nat (select_due dated_deck (isoformat new_year_2024) (seq 0 3))
   <-> new_year_2024 <= new_year_2024) /\
  (In 2%nat (select_due dated_deck (isoformat new_year_2024) (seq 0 3))
   <-> new_year_2024 + 1 <= new_year_2024).
Proof.
  assert (Ht : valid_date new_year_2024)
    by (unfold valid_date, new_year_2024, MAXORDINAL; lia).
  split; [exact Ht|].
  destruct (due_selection dated_deck new_year_2024 (seq 0 3) Ht) as (_ & _ & H).
  split; apply H; try reflexivity;
    try (unfold valid_date, new_year_2024, MAXORDINAL; lia);
    simpl; tauto.
Defined.




(** C6: the merge is idempotent: merging the updated cards into the
    merged deck again changes nothing, both on the deck of card objects
    the session holds and on decks of card records. *)
Theorem merge_idempotent :
  (forall h updated_cards deck,
     merge h updated_cards (merge h updated_cards deck)
     = merge h updated_cards deck) /\
  (forall updated_cards deck,
     merge_cards updated_cards (merge_cards updated_cards deck)
     = merge_cards updated_cards deck).
Proof.
  split.
  - intros h updated_cards deck. rewrite !merge_fmap, <- list_fmap_compose.
    apply list_fmap_ext. intros i l _. apply merged_idemp.
  - intros updated_cards deck. rewrite !merge_cards_fmap, <- list_fmap_compose.
    apply list_fmap_ext. intros i c _. apply replacement_idemp.
Qed.

(** C7, as stated, fails: a new card reviewed with score 4 (Good) keeps
    its ease factor, 2.5; no review outcome has repetitions 1, interval 1,
    the next day as review date and an ease factor above 2.5. *)
Lemma good_review_ease_not_increased :
  ~ exists c',
      schedule new_year_2024 4 (new_card new_year_2024 "front" "back") = Ok c' /\
      repetitions c' = 1 /\ interval c' = 1 /\
      next_review_date c' = isoformat (new_year_2024 + 1) /\
      (2.5 <? ease_factor c')%float = true.
Proof.
  intros (c' & H & _ & _ & _ & He). vm_compute in H.
  injection H as <-. vm_compute in He. discriminate.
Qed.

(** C7, amended: [add_new_card] creates a card with [repetitions = 0],
    [interval = 1], [ease_factor = 2.5] and today as [next_review_date];
    reviewed today with score 4 (Good), it has [repetitions = 1],
    [interval = 1], the day after today as [next_review_date], and its
    ease factor is unchanged, exactly 2.5: with score 4 the SM-2
    increment is [0.1 - 1 * (0.08 + 1 * 0.02)], which is zero. *)
Theorem new_card_good_review today f b deck stdin :
  valid_date today -> today < MAXORDINAL ->
  add_new_card today deck (Line f :: Line b :: stdin)
  = Some (deck ++ [mkCard f b (isoformat today) 0 1 2.5]) /\
  schedule today 4 (mkCard f b (isoformat today) 0 1 2.5)
  = Ok (mkCard f b (isoformat (today + 1)) 1 1 2.5).
Proof.
  intros Ht Hm. split; [reflexivity|].
  apply (schedule_ok today 4 (mkCard f b (isoformat today) 0 1 2.5)
           1 1 2.5%float).
  - reflexivity.
  - reflexivity.
  - exact Ht.
  - unfold valid_date in *. lia.
Qed.

Lemma new_card_good_review_witness :
  (valid_date new_year_2024 /\ new_year_2024 < MAXORDINAL) /\
  schedule new_year_2024 4 (mkCard "front" "back" "2024-01-01" 0 1 2.5)
  = Ok (mkCard "front" "back" "2024-01-02" 1 1 2.5).
Proof.
  assert (Ht : valid_date new_year_2024)
    by (unfold valid_date, new_year_2024, MAXORDINAL; lia).
  assert (Hm : new_year_2024 < MAXORDINAL)
    by (unfold new_year_2024, MAXORDINAL; lia).
  split; [auto|].
  exact (proj2 (new_card_good_review new_year_2024 "front" "back" [] [] Ht Hm)).
Defined.

(** C8: a review leaves [front] and [back] unchanged; the fields it
    writes are the four scheduling fields. *)
Theorem review_keeps_front_back today q c c' :
  valid_score q -> schedule today q c = Ok c' ->
  front c' = front c /\ back c' = back c /\
  exists d reps i ef,
    c' = {| front := front c;
            back := back c;
            next_review_date := d;
            repetitions := reps;
            interval := i;
            ease_factor := ef |}.
Proof.
  intros _ H.
  apply schedule_inv in H as (reps & i & ef & d & _ & _ & _ & ->).
  simpl. repeat split. now exists (isoformat d), reps, i, ef.
Qed.

Lemma review_keeps_front_back_witness :
  (valid_score 5 /\
   schedule new_year_2024 5 easy_card = Ok easy_card_reviewed) /\
  front easy_card_reviewed = "front" /\ back easy_card_reviewed = "back".
Proof.
  assert (Hv : valid_score 5) by (right; right; right; reflexivity).
  assert (Hs : schedule new_year_2024 5 easy_card = Ok easy_card_reviewed)
    by (vm_compute; reflexivity).
  split; [auto|].
  destruct (review_keeps_front_back new_year_2024 5 easy_card
              easy_card_reviewed Hv Hs) as (Hf & Hb & _).
  split; [exact Hf|exact Hb].
Defined.

(** C9, as stated, fails: a card with [interval = 1] whose stored ease
    factor is 0.25, reviewed with score 5 after two successes, gets
    [interval = round(1 * 0.25) = 0]; its next review date is today and it
    is due again on the same day. *)
Lemma low_ease_card_due_again :
  1 <= interval low_ease_card /\ valid_score 5 /\
  exists c',
    schedule new_year_2024 5 low_ease_card = Ok c' /\
    interval c' = 0 /\
    next_review_date c' = isoformat new_year_2024 /\
    is_due (isoformat new_year_2024) c' = true.
Proof.
  split; [simpl; lia|]. split; [right; right; right; reflexivity|].
  eexists. split; [vm_compute; reflexivity|]. repeat split.
Qed.

(** C9, amended: for a card with [interval >= 1] and
    [ease_factor >= 1.3], a review with a valid score gives a next review
    date at least one day after today, so the card is not due again
    today. *)
Theorem reviewed_card_not_due_again today q c c' :
  valid_date today -> valid_score q ->
  1 <= interval c -> (1.3 <=? ease_factor c)%float = true ->
  schedule today q c = Ok c' ->
  exists d,
    valid_date d /\ today + 1 <= d /\
    next_review_date c' = isoformat d /\
    is_due (isoformat today) c' = false.
Proof.
  intros Ht _ Hi He H.
  apply schedule_inv in H as (reps & i & ef & d & H1 & _ & H3 & ->).
  apply date_add_inv in H3 as [-> Hd].
  pose proof (next_interval_at_least_1 _ _ _ _ Hi He H1) as Hi1.
  exists (today + i). simpl. repeat split; try (unfold valid_date in *; lia).
  unfold is_due. simpl. rewrite isoformat_le by assumption. lia.
Qed.

Lemma reviewed_card_not_due_again_witness :
  (valid_date new_year_2024 /\ valid_score 5 /\ 1 <= interval easy_card /\
   (1.3 <=? ease_factor easy_card)%float = true /\
   schedule new_year_2024 5 easy_card = Ok easy_card_reviewed) /\
  is_due (isoformat new_year_2024) easy_card_reviewed = false.
Proof.
  assert (Ht : valid_date new_year_2024)
    by (unfold valid_date, new_year_2024, MAXORDINAL; lia).
  assert (Hv : valid_score 5) by (right; right; right; reflexivity).
  assert (Hi : 1 <= interval easy_card) by (simpl; lia).
  assert (He : (1.3 <=? ease_factor easy_card)%float = true) by reflexivity.
  assert (Hs : schedule new_year_2024 5 easy_card = Ok easy_card_reviewed)
    by (vm_compute; reflexivity).
  split; [auto 6|].
  destruct (reviewed_card_not_due_again new_year_2024 5 easy_card
              easy_card_reviewed Ht Hv Hi He Hs) as (d & _ & _ & _ & Hd).
  exact Hd.
Defined.

(** C10: when a card with some (front, back) key has been reviewed, the
    merge puts one and the same updated card object at every position of
    the deck that holds a card with that key, so all the duplicates are
    saved with identical contents and none keeps its old state. *)
Theorem merge_replaces_every_duplicate h updated_cards deck l :
  l ∈ updated_cards ->
  exists u,
    u ∈ updated_cards /\
    key (h !!! u) = key (h !!! l) /\
    forall i li,
      deck !! i = Some li -> key (h !!! li) = key (h !!! l) ->
      merge h updated_cards deck !! i = Some u /\
      save_deck h (merge h updated_cards deck) !! i = Some (h !!! u).
Proof.
  intros Hl.
  destruct (card_map_lookup_is_Some h updated_cards l Hl) as [u Hu].
  pose proof (card_map_lookup_Some _ _ _ _ Hu) as [Hin Hk].
  exists u. split; [exact Hin|]. split; [exact Hk|].
  intros i li Hi Hli.
  assert (Hm : merge h updated_cards deck !! i = Some u).
  { rewrite merge_fmap, list_lookup_fmap, Hi. simpl. unfold merged.
    now rewrite Hli, Hu. }
  split; [exact Hm|]. unfold save_deck. now rewrite list_lookup_fmap, Hm.
Qed.

(** In [duplicate_deck], once its first card has been reviewed, the first
    and the third position both receive the updated first card. *)
Lemma merge_replaces_every_duplicate_witness :
  (0%nat ∈ [0%nat]) /\
  exists u,
    u ∈ [0%nat] /\
    key ([dup_due_reviewed; other_due; dup_later] !!! u)
    = key ([dup_due_reviewed; other_due; dup_later] !!! 0%nat) /\
    forall i li,
      seq 0 3 !! i = Some li ->
      key ([dup_due_reviewed; other_due; dup_later] !!! li)
      = key ([dup_due_reviewed; other_due; dup_later] !!! 0%nat) ->
      merge [dup_due_reviewed; other_due; dup_later] [0%nat] (seq 0 3) !! i
      = Some u /\
      save_deck [dup_due_reviewed; other_due; dup_later]
        (merge [dup_due_reviewed; other_due; dup_later] [0%nat] (seq 0 3)) !! i
      = Some ([dup_due_reviewed; other_due; dup_later] !!! u).
Proof.
  assert (H0 : 0%nat ∈ [0%nat]) by (apply list_elem_of_singleton; reflexivity).
  split; [exact H0|].
  exact (merge_replaces_every_duplicate
           [dup_due_reviewed; other_due; dup_later] [0%nat] (seq 0 3)
           0%nat H0).
Defined.

(** * Further properties of the code *)

(** ** Prompts and scheduler errors *)

Module ReviewFacts.

Import PyFloatFacts PyDateFacts SchedulerFacts SessionFacts.

Lemma float_of_int_raises n e : float_of_int n = Raise e -> e = OverflowError.
Proof.
  unfold float_of_int.
  destruct (binary_normalize prec emax n 0 false); congruence.
Qed.

Lemma py_round_raises x e : py_round x = Raise e -> scheduler_error e.
Proof.
  unfold py_round, scheduler_error.
  destruct (Prim2SF x); intros [= <-]; auto.
Qed.

Lemma next_interval_raises q c e :
  next_interval q c = Raise e -> scheduler_error e.
Proof.
  unfold next_interval. destruct (q <? 3); [discriminate|].
  destruct (repetitions c =? 0); [discriminate|].
  destruct (repetitions c =? 1); [discriminate|].
  destruct (float_of_int (interval c)) as [x|e0] eqn:Ex; simpl.
  - destruct (py_round (x * ease_factor c)%float) as [r|e1] eqn:Er; simpl;
      [discriminate|].
    intros [= <-]. eapply py_round_raises; eauto.
  - intros [= <-]. left. eapply float_of_int_raises; eauto.
Qed.

Lemma schedule_raises today q c e :
  schedule today q c = Raise e -> scheduler_error e.
Proof.
  unfold schedule.
  destruct (next_interval q c) as [[reps i]|e0] eqn:E1; simpl.
  2:{ intros [= <-]. eapply next_interval_raises; eauto. }
  destruct (next_ease_factor q (ease_factor c)) as [ef|e0] eqn:E2; simpl.
  2:{ intros [= <-]. left. unfold next_ease_factor in E2.
      destruct (float_of_int (5 - q)) eqn:E; simpl in E2; [discriminate|].
      injection E2 as <-. eapply float_of_int_raises; eauto. }
  unfold timedelta. destruct (Z.abs i <=? 999999999); simpl.
  2:{ intros [= <-]. now left. }
  unfold date_add. destruct (_ && _); simpl; [discriminate|].
  intros [= <-]. now left.
Qed.


(** Adding [+0.0] changes no float except [-0.0]. *)
Lemma add_zero_r x :
  Prim2SF x <> S754_zero true -> (x + 0)%float = x.
Proof.
  intros Hx. apply Prim2SF_inj. rewrite add_spec.
  change (Prim2SF 0) with (S754_zero false).
  destruct (Prim2SF x) as [[|]|[|]| |s m e]; try reflexivity. congruence.
Qed.

(** A float that is at least 1.3 and not above 1.3 is 1.3. *)
Lemma leb_not_ltb_1_3 x :
  (1.3 <=? x)%float = true -> (1.3 <? x)%float = false -> x = 1.3%float.
Proof.
  rewrite leb_spec, ltb_spec. intros Hle Hlt. apply Prim2SF_inj.
  change (Prim2SF 1.3%float) with (S754_finite false 5854679515581645 (-52)) in *.
  unfold SFleb, SFltb, SFcompare in *.
  destruct (Prim2SF x) as [s|[|]| |[|] m e]; try discriminate.
  destruct (Z.compare_spec (-52) e) as [He|H|H]; try discriminate.
  destruct (Pos.compare_cont Eq 5854679515581645 m) eqn:E; try discriminate.
  apply Pos.compare_eq in E. now subst.
Qed.

Lemma py_max_1_3_id x : (1.3 <=? x)%float = true -> py_max 1.3 x = x.
Proof.
  intros H. unfold py_max. destruct (1.3 <? x)%float eqn:E; [reflexivity|].
  symmetry. now apply leb_not_ltb_1_3.
Qed.

Lemma leb_1_3_not_neg_zero x :
  (1.3 <=? x)%float = true -> Prim2SF x <> S754_zero true.
Proof.
  intros H E. apply leb_1_3_at_least_one in H. now rewrite E in H.
Qed.

(** [review_card] applies a valid score or is cancelled at the prompt. *)
Lemma review_card_inv today card stdin r rest :
  review_card today card stdin = (r, rest) ->
  (exists q, valid_score q /\ r = schedule today q card) \/
  (exists e, cancellation e /\ r = Raise e).
Proof.
  unfold review_card.
  destruct (read_quality stdin) as [[q|e] rest'] eqn:E; intros [= <- <-].
  - left. exists q. split; [|reflexivity]. eapply read_quality_valid; eauto.
  - right. exists e. split; [|reflexivity]. eapply read_quality_raises; eauto.
Qed.

(** What the quality prompt has read when it returns: the lines it has
    rejected, then a valid answer, a Ctrl-C or the end of input. *)
Lemma read_quality_inv stdin r rest :
  read_quality stdin = (r, rest) ->
  exists bad,
    Forall (fun ev => exists s, ev = Line s /\
                                QUALITY_MAP (PyStr.strip s) = None) bad /\
    ((exists s q, stdin = bad ++ Line s :: rest /\
                  QUALITY_MAP (PyStr.strip s) = Some q /\ r = Ok q) \/
     (stdin = bad ++ CtrlC :: rest /\ r = Raise KeyboardInterrupt) \/
     (stdin = bad /\ rest = [] /\ r = Raise EOFError)).
Proof.
  induction stdin as [|[s|] stdin IH]; simpl.
  - intros [= <- <-]. exists []. split; [constructor|]. right. right. auto.
  - destruct (QUALITY_MAP (PyStr.strip s)) as [q|] eqn:Eq.
    + intros [= <- <-]. exists []. split; [constructor|]. left.
      exists s, q. auto.
    + intros H. destruct (IH H) as (bad & Hbad & Hcases).
      exists (Line s :: bad). split.
      { constructor; [|exact Hbad]. exists s. auto. }
      destruct Hcases as [(s' & q & -> & Hq & ->)|[[-> ->]|(-> & -> & ->)]].
      * left. exists s', q. auto.
      * right. left. auto.
      * right. right. auto.
  - intros [= <- <-]. exists []. split; [constructor|]. right. left. auto.
Qed.

(** A rejected line of ASCII input is an invalid answer. *)
Lemma rejected_ascii bad :
  Forall ascii_event bad ->
  Forall (fun ev => exists s, ev = Line s /\
                              QUALITY_MAP (PyStr.strip s) = None) bad ->
  Forall invalid_answer bad.
Proof.
  induction bad as [|ev bad IH]; intros Ha Hr; constructor.
  - apply Forall_cons in Ha as [Ha _]. apply Forall_cons in Hr as [Hr _].
    destruct Hr as (s & -> & Hs). exists s. auto.
  - apply Forall_cons in Ha as [_ Ha]. apply Forall_cons in Hr as [_ Hr]. auto.
Qed.

(** [add_new_card] saves exactly when both prompts are answered. *)
Lemma add_new_card_inv today deck stdin saved :
  add_new_card today deck stdin = Some saved ->
  exists f b rest,
    stdin = Line f :: Line b :: rest /\ saved = deck ++ [new_card today f b].
Proof.
  unfold add_new_card.
  destruct stdin as [|[f|] [|[b|] rest]]; simpl; try discriminate.
  intros [= <-]. now exists f, b, rest.
Qed.

(** A card is due on the day written in its [next_review_date]. *)
Lemma new_card_is_due today f b :
  is_due (isoformat today) (new_card today f b) = true.
Proof.
  unfold is_due, PyStr.le, String.leb. simpl.
  now rewrite PyDateFacts.string_compare_refl.
Qed.

End ReviewFacts.


(** ** The review loop and the session, read from their results *)

Module LoopFacts.

Import PyFloatFacts PyDateFacts SchedulerFacts SessionFacts ReviewFacts.

(** What the review loop has done when it stops, read off its result:
    it has reviewed a prefix of the due cards, each with a valid score,
    and touched no other card. *)
Lemma review_loop_inv today due :
  forall h updated stdin e h' updated',
  NoDup due ->
  (forall l, l ∈ due -> (l < length h)%nat) ->
  review_loop today due h updated stdin = (e, h', updated') ->
  exists k,
    (k <= length due)%nat /\
    updated' = updated ++ take k due /\
    (e = None -> k = length due) /\
    (forall x, e = Some x -> cancellation x \/ scheduler_error x) /\
    length h' = length h /\
    (forall l, l ∈ take k due ->
       exists q, valid_score q /\ schedule today q (h !!! l) = Ok (h' !!! l)) /\
    (forall l, l ∉ take k due -> h' !!! l = h !!! l).
Proof.
  induction due as [|card due IH]; intros h updated stdin e h' updated' Hnd Hlt.
  - simpl. intros [= <- <- <-]. exists 0%nat. simpl. rewrite app_nil_r.
    repeat split; auto; try discriminate.
    intros l Hl. now apply elem_of_nil in Hl.
  - simpl. destruct (input stdin) as [[s|e0] stdin1] eqn:Ei.
    2:{ intros [= <- <- <-]. exists 0%nat. simpl. rewrite app_nil_r.
        repeat split; auto; try lia; try discriminate.
        - intros x [= <-]. left. eapply input_raises; eauto.
        - intros l Hl. now apply elem_of_nil in Hl. }
    destruct (review_card today (h !!! card) stdin1) as [[c'|e0] stdin2] eqn:Er.
    2:{ intros [= <- <- <-]. exists 0%nat. simpl. rewrite app_nil_r.
        repeat split; auto; try lia; try discriminate.
        - intros x [= <-].
          destruct (review_card_inv _ _ _ _ _ Er)
            as [(q & _ & Hq)|(x & Hx & [= ->])]; [|now left].
          right. symmetry in Hq. eapply schedule_raises; eauto.
        - intros l Hl. now apply elem_of_nil in Hl. }
    destruct (review_card_inv _ _ _ _ _ Er)
      as [(q & Hq & Hsch)|(x & _ & [=])].
    apply NoDup_cons in Hnd as [Hcard Hnd].
    assert (Hcl : (card < length h)%nat) by (apply Hlt; left).
    intros Hloop.
    apply IH in Hloop as (k & Hk & Hupd & Hdone & Herr & Hlen & Hrev & Hsame);
      [|exact Hnd|intros l Hl; rewrite length_insert; apply Hlt; now right].
    exists (S k). simpl. rewrite <- app_assoc in Hupd. simpl in Hupd.
    split; [lia|]. split; [exact Hupd|].
    split; [intros He; f_equal; now apply Hdone|].
    split; [exact Herr|]. split; [now rewrite Hlen, length_insert|]. split.
    + intros l Hl. apply elem_of_cons in Hl as [->|Hl].
      * exists q. split; [exact Hq|]. rewrite Hsame.
        -- now rewrite list_lookup_total_insert_eq.
        -- intros Hin. apply Hcard. apply elem_of_take in Hin as (i & Hi & _).
           eapply list_elem_of_lookup_2; eauto.
      * destruct (Hrev l Hl) as (q' & Hq' & Hs'). exists q'. split; [exact Hq'|].
        rewrite list_lookup_total_insert_ne in Hs'; [exact Hs'|].
        intros ->. apply Hcard. apply elem_of_take in Hl as (i & Hi & _).
        eapply list_elem_of_lookup_2; eauto.
    + intros l Hl. apply not_elem_of_cons in Hl as [Hne Hl].
      rewrite Hsame by assumption. now apply list_lookup_total_insert_ne.
Qed.

(** The loop of a session, started on the shuffled due cards. *)
Lemma session_loop_inv today shuffle stored stdin e h' updated' :
  (forall l, shuffle l ≡ₚ l) ->
  review_loop today
    (shuffle (select_due stored (isoformat today) (seq 0 (length stored))))
    stored [] stdin = (e, h', updated') ->
  let due := shuffle (select_due stored (isoformat today) (seq 0 (length stored))) in
  exists k,
    (k <= length due)%nat /\ updated' = take k due /\
    (e = None -> k = length due) /\
    (forall x, e = Some x -> cancellation x \/ scheduler_error x) /\
    length h' = length stored /\
    (forall l, l ∈ due -> (l < length stored)%nat /\
                          is_due (isoformat today) (stored !!! l) = true) /\
    (forall l, l ∈ take k due ->
       exists q, valid_score q /\
                 schedule today q (stored !!! l) = Ok (h' !!! l)) /\
    (forall l, l ∉ take k due -> h' !!! l = stored !!! l) /\
    (forall l, key (h' !!! l) = key (stored !!! l)).
Proof.
  intros Hperm Hloop due.
  destruct (select_due_seq stored (isoformat today) (length stored)) as [Hnd0 Hlt0].
  assert (Hnd : NoDup due) by (unfold due; now rewrite Hperm).
  assert (Hdue : forall l, l ∈ due -> (l < length stored)%nat /\
                   is_due (isoformat today) (stored !!! l) = true).
  { intros l Hl. unfold due in Hl. rewrite Hperm in Hl. split; [now apply Hlt0|].
    apply list_elem_of_In, select_due_In in Hl. tauto. }
  apply review_loop_inv in Hloop
    as (k & Hk & Hupd & Hdone & Herr & Hlen & Hrev & Hsame);
    [|exact Hnd|intros l Hl; now apply Hdue].
  exists k. repeat split; auto; try (now apply Hdue).
  intros l. destruct (decide (l ∈ take k due)) as [Hin|Hout].
  - destruct (Hrev l Hin) as (q & _ & Hs). eapply schedule_key; eauto.
  - now rewrite Hsame.
Qed.

End LoopFacts.

Module OutcomeFacts.

Import PyFloatFacts PyDateFacts SchedulerFacts SessionFacts ReviewFacts.
Import LoopFacts.

(** How the outcome of a session reads the end of its loop. *)
Lemma run_review_session_inv today shuffle stored stdin :
  let deck := seq 0 (length stored) in
  let due := shuffle (select_due stored (isoformat today) deck) in
  match run_review_session today shuffle stored stdin with
  | EmptyDeck => stored = []
  | NothingDue => stored <> [] /\ select_due stored (isoformat today) deck = []
  | Completed saved =>
      select_due stored (isoformat today) deck <> [] /\
      exists h' updated,
        review_loop today due stored [] stdin = (None, h', updated) /\
        saved = save_deck h' (merge h' updated deck)
  | Interrupted saved =>
      select_due stored (isoformat today) deck <> [] /\
      exists x h' updated,
        cancellation x /\
        review_loop today due stored [] stdin = (Some x, h', updated) /\
        saved = save_deck h' (merge h' updated deck)
  | Uncaught e =>
      ~ cancellation e /\
      exists h' updated,
        review_loop today due stored [] stdin = (Some e, h', updated)
  end.
Proof.
  cbv zeta.
  destruct (decide (select_due stored (isoformat today) (seq 0 (length stored)) = []))
    as [Ed|Ed].
  - unfold run_review_session. destruct stored as [|c0 stored']; [reflexivity|].
    rewrite Ed. split; [discriminate|reflexivity].
  - rewrite run_review_session_due by exact Ed.
    destruct (review_loop _ _ _ _ _) as [[[x|] h'] updated];
      [destruct x|]; cbv beta iota; unfold cancellation.
    + split; [intros [H|H]; discriminate|]. eauto.
    + split; [intros [H|H]; discriminate|]. eauto.
    + split; [exact Ed|]. exists KeyboardInterrupt, h', updated. auto.
    + split; [exact Ed|]. exists EOFError, h', updated. auto.
    + split; [exact Ed|]. eauto.
Qed.

(** The deck written after the merge, position by position. *)
Lemma saved_lookup h updated n l :
  (l < n)%nat ->
  save_deck h (merge h updated (seq 0 n)) !! l
  = Some (h !!! merged h updated l).
Proof.
  intros Hl. unfold save_deck.
  rewrite merge_fmap, !list_lookup_fmap, lookup_seq_lt by assumption.
  reflexivity.
Qed.

Lemma saved_length h updated n :
  length (save_deck h (merge h updated (seq 0 n))) = n.
Proof. unfold save_deck. now rewrite merge_fmap, !length_fmap, length_seq. Qed.

End OutcomeFacts.

Module CompletedFacts.

Import PyFloatFacts PyDateFacts SchedulerFacts SessionFacts ReviewFacts.
Import LoopFacts OutcomeFacts.

(** With distinct keys the merge leaves every card object in place. *)
Lemma merged_distinct_keys stored h' updated l :
  NoDup (key <$> stored) ->
  (forall l, key (h' !!! l) = key (stored !!! l)) ->
  (forall u, u ∈ updated -> (u < length stored)%nat) ->
  (l < length stored)%nat ->
  merged h' updated l = l.
Proof.
  intros Hkeys Hkey Hup Hl. unfold merged.
  destruct (card_map h' updated !! key (h' !!! l)) as [u|] eqn:E; [|reflexivity].
  simpl. apply card_map_lookup_Some in E as [Hu Hku].
  rewrite !Hkey in Hku. apply (key_inj stored); auto.
Qed.

(** A review of a due card with interval and ease factor in range is
    not due on the day of the review. *)
Lemma schedule_not_due today q c c' :
  valid_date today ->
  1 <= interval c -> (1.3 <=? ease_factor c)%float = true ->
  schedule today q c = Ok c' ->
  is_due (isoformat today) c' = false.
Proof.
  intros Ht Hi He H.
  apply schedule_inv in H as (reps & i & ef & d & H1 & _ & H3 & ->).
  apply date_add_inv in H3 as [-> Hd].
  pose proof (next_interval_at_least_1 _ _ _ _ Hi He H1) as Hi1.
  unfold is_due. simpl. rewrite isoformat_le by assumption. lia.
Qed.

Lemma filter_nil_forall {A} (f : A -> bool) l :
  (forall x, In x l -> f x = false) -> List.filter f l = [].
Proof.
  induction l as [|x l IH]; intros H; simpl; [reflexivity|].
  rewrite (H x (or_introl eq_refl)). apply IH. intros y Hy. apply H. now right.
Qed.

Lemma ratings_first_cancelled n stdin :
  ratings 1 stdin = [] -> ratings n stdin = [].
Proof.
  destruct n as [|n]; [reflexivity|]. simpl.
  destruct (input stdin) as [[s|e] stdin1]; [|reflexivity].
  destruct (read_quality stdin1) as [[q|e] stdin2]; [discriminate|reflexivity].
Qed.

Lemma lookup_total_ext (h1 h2 : list Card) :
  length h1 = length h2 -> (forall l, h1 !!! l = h2 !!! l) -> h1 = h2.
Proof.
  intros Hlen H. apply list_eq. intros l.
  destruct (decide (l < length h1)%nat) as [Hl|Hl].
  - rewrite (list_lookup_lookup_total_lt h1 l Hl).
    rewrite (list_lookup_lookup_total_lt h2 l) by lia. now rewrite H.
  - rewrite !lookup_ge_None_2 by lia. reflexivity.
Qed.

Lemma save_deck_unmerged h :
  save_deck h (merge h [] (seq 0 (length h))) = h.
Proof.
  apply list_eq. intros l. destruct (decide (l < length h)%nat) as [Hl|Hl].
  - rewrite saved_lookup by assumption. unfold merged, card_map. simpl.
    rewrite lookup_empty. simpl. symmetry.
    now apply list_lookup_lookup_total_lt.
  - rewrite !lookup_ge_None_2; [reflexivity|lia|rewrite saved_length; lia].
Qed.

End CompletedFacts.

Module MergeFacts.

Import SessionFacts.

(** The lookup entry of a key is the last updated card with that key. *)
Lemma card_map_last_wins h earlier u later :
  (forall v, v ∈ later -> key (h !!! v) <> key (h !!! u)) ->
  card_map h (earlier ++ u :: later) !! key (h !!! u) = Some u.
Proof.
  induction later as [|v later IH] using rev_ind; intros H.
  - change (earlier ++ [u]) with (earlier ++ [u]).
    rewrite card_map_snoc. apply lookup_insert_eq.
  - replace (earlier ++ u :: later ++ [v]) with ((earlier ++ u :: later) ++ [v])
      by now rewrite <- app_assoc.
    rewrite card_map_snoc, lookup_insert_ne.
    + apply IH. intros w Hw. apply H. apply elem_of_app. now left.
    + apply H. apply elem_of_app. right. now apply list_elem_of_singleton.
Qed.

End MergeFacts.

(** ** A review that raises, and the card just added *)

Module CrashFacts.

Import SchedulerFacts SessionFacts ReviewFacts.

(** The loop stops at the first card whose update raises, with that
    exception. *)
Lemma review_loop_raises today due :
  forall h updated stdin k l q e,
  NoDup due ->
  due !! k = Some l ->
  ratings (length due) stdin !! k = Some q ->
  (forall j l' q', (j < k)%nat -> due !! j = Some l' ->
     ratings (length due) stdin !! j = Some q' ->
     exists c', schedule today q' (h !!! l') = Ok c') ->
  schedule today q (h !!! l) = Raise e ->
  exists h' updated', review_loop today due h updated stdin = (Some e, h', updated').
Proof.
  induction due as [|card due IH]; intros h updated stdin k l q e Hnd Hk Hq Hok Hr.
  - now rewrite lookup_nil in Hk.
  - simpl in Hq |- *.
    destruct (input stdin) as [[s|e0] stdin1] eqn:Ei;
      [|now rewrite lookup_nil in Hq].
    unfold review_card.
    destruct (read_quality stdin1) as [[q0|e0] stdin2] eqn:Er;
      [|now rewrite lookup_nil in Hq].
    apply NoDup_cons in Hnd as [Hcard Hnd].
    destruct k as [|k]; simpl in Hk, Hq.
    + injection Hk as <-. injection Hq as <-. rewrite Hr. eauto.
    + destruct (Hok 0%nat card q0) as [c' Hc']; [lia|reflexivity| |].
      { simpl. now rewrite Ei, Er. }
      rewrite Hc'.
      assert (Hother : forall l', l' ∈ due -> <[card:=c']> h !!! l' = h !!! l').
      { intros l' Hl'. apply list_lookup_total_insert_ne. congruence. }
      apply (IH _ _ _ k l q e Hnd Hk Hq).
      * intros j l' q' Hj Hl' Hq'.
        rewrite Hother by (eapply list_elem_of_lookup_2; eauto).
        apply (Hok (S j) l' q'); [lia|exact Hl'|].
        simpl. now rewrite Ei, Er.
      * rewrite Hother by (eapply list_elem_of_lookup_2; eauto). exact Hr.
Qed.

(** With a key that is not in the deck, the merge leaves the last card
    of the deck in place. *)
Lemma merged_new_key deck c h' updated :
  key c ∉ (key <$> deck) ->
  (forall l, key (h' !!! l) = key ((deck ++ [c]) !!! l)) ->
  (forall u, u ∈ updated -> (u < length (deck ++ [c]))%nat) ->
  merged h' updated (length deck) = length deck.
Proof.
  intros Hnew Hkey Hup. unfold merged.
  destruct (card_map h' updated !! key (h' !!! length deck)) as [u|] eqn:E;
    [|reflexivity].
  simpl. apply card_map_lookup_Some in E as [Hu Hku].
  rewrite !Hkey in Hku. specialize (Hup u Hu). rewrite length_app in Hup.
  simpl in Hup. destruct (decide (u = length deck)) as [->|Hne]; [reflexivity|].
  exfalso. apply Hnew.
  rewrite lookup_total_app_l in Hku by lia.
  rewrite lookup_total_app_r, Nat.sub_diag in Hku by lia. simpl in Hku.
  rewrite <- Hku. apply list_elem_of_fmap. exists (deck !!! u). split; [reflexivity|].
  apply list_elem_of_lookup_total_2. lia.
Qed.

End CrashFacts.


(** ** White space around an answer *)

Module PromptFacts.

Lemma QUALITY_MAP_keys k q :
  QUALITY_MAP k = Some q ->
  exists c, k = String c EmptyString /\ PyStr.is_space c = false.
Proof.
  unfold QUALITY_MAP.
  destruct (String.eqb_spec k "1") as [->|_]; [eexists; split; reflexivity|].
  destruct (String.eqb_spec k "2") as [->|_]; [eexists; split; reflexivity|].
  destruct (String.eqb_spec k "3") as [->|_]; [eexists; split; reflexivity|].
  destruct (String.eqb_spec k "4") as [->|_]; [eexists; split; reflexivity|].
  discriminate.
Qed.

Lemma rstrip_blank s : blank s = true -> PyStr.rstrip s = EmptyString.
Proof.
  induction s as [|c r IH]; simpl; [reflexivity|].
  intros H. apply andb_prop in H as [Hc Hr]. now rewrite IH, Hc.
Qed.

Lemma lstrip_blank_app s t : blank s = true -> PyStr.lstrip (s +:+ t) = PyStr.lstrip t.
Proof.
  induction s as [|c r IH]; simpl; [reflexivity|].
  intros H. apply andb_prop in H as [Hc Hr]. now rewrite Hc, IH.
Qed.

Lemma strip_padded ws1 c ws2 :
  blank ws1 = true -> blank ws2 = true -> PyStr.is_space c = false ->
  PyStr.strip (ws1 +:+ String c EmptyString +:+ ws2) = String c EmptyString.
Proof.
  intros H1 H2 Hc. unfold PyStr.strip. rewrite lstrip_blank_app by assumption.
  simpl. rewrite Hc. simpl. rewrite rstrip_blank by assumption. now rewrite Hc.
Qed.

End PromptFacts.

(** ** The order of the floats and rounding *)

Module FloatOrderFacts.

Import PyFloatFacts PyDateFacts SchedulerFacts SessionFacts.

Lemma Zdigits2_le m n : 0 <= m <= n -> Zdigits2 m <= Zdigits2 n.
Proof.
  intros [H0 H]. destruct (Z.eq_dec m 0) as [->|E]; [apply Zdigits2_nonneg|].
  rewrite !Zdigits2_log2 by lia. pose proof (Z.log2_le_mono m n H). lia.
Qed.

Lemma Zdigits2_mul_pow2 m k :
  0 < m -> 0 <= k -> Zdigits2 (m * 2 ^ k) = Zdigits2 m + k.
Proof.
  intros Hm Hk. assert (0 < 2 ^ k) by (apply Z.pow_pos_nonneg; lia).
  rewrite !Zdigits2_log2 by nia. rewrite Z.log2_mul_pow2 by lia. lia.
Qed.

Lemma iter_xO_value m d : Z.pos (Pos.iter xO m d) = Z.pos m * 2 ^ Z.pos d.
Proof.
  induction d as [|d IH] using Pos.peano_ind.
  - simpl. lia.
  - rewrite Pos.iter_succ, Pos2Z.inj_xO, IH, Pos2Z.inj_succ, Z.pow_succ_r by lia.
    lia.
Qed.

(** [shl_align] changes the exponent and keeps the value. *)
Lemma shl_align_value m e e' :
  let '(mz, ez) := shl_align m e e' in
  ez <= e /\ Z.pos mz = Z.pos m * 2 ^ (e - ez) /\ (e' <= e -> ez = e').
Proof.
  unfold shl_align. destruct (e' - e) as [|d|d] eqn:E.
  - rewrite Z.sub_diag. simpl. lia.
  - rewrite Z.sub_diag. simpl. lia.
  - rewrite iter_xO_value. replace (e - e') with (Z.pos d) by lia. lia.
Qed.

(** Rounding is monotone around a float: a value that is not below a
    float does not round below it. *)
Lemma binary_round_aux_ge mx ex M e l :
  fexp prec emax (Zdigits2 (Z.pos mx) + ex) = ex ->
  e <= ex -> Z.pos mx * 2 ^ (ex - e) <= M ->
  SFleb (S754_finite false mx ex) (binary_round_aux prec emax false M e l) = true.
Proof.
  intros Hc He HM.
  assert (Hp : 0 < 2 ^ (ex - e)) by (apply Z.pow_pos_nonneg; lia).
  assert (HM0 : 0 < M) by nia.
  assert (HD : Zdigits2 (Z.pos mx) + (ex - e) <= Zdigits2 M).
  { rewrite <- Zdigits2_mul_pow2 by lia. apply Zdigits2_le. lia. }
  pose proof (Zdigits2_pos (Z.pos mx) ltac:(lia)) as Hdx.
  round_digits false M e l.
  rewrite fexp64 in *.
  assert (E1 : ex <= e1) by lia.
  assert (E3 : e1 <= e3) by lia.
  assert (D3 : 0 < Zdigits2 m3) by lia.
  assert (V : ex = e3 -> Z.pos mx <= m3).
  { intros E. assert (e1 = ex) by lia. subst e1 e3.
    assert (m3 = m2) as -> by lia.
    assert (Z.pos mx <= m1); [|lia].
    unfold shifted in H1. destruct (0 <? _) eqn:K in H1; inversion H1; subst.
    - replace (e + (Z.max (Zdigits2 M + e - 53) (-1074) - e) - e)
        with (Z.max (Zdigits2 M + e - 53) (-1074) - e) in * by lia.
      apply Z.div_le_lower_bound; lia.
    - rewrite Z.sub_diag in HM. lia. }
  unfold pack. destruct m3 as [|p|p]; [simpl in D3; lia| |simpl in D3; lia].
  destruct (e3 <=? emax - prec); [|reflexivity].
  unfold SFleb, SFcompare. destruct (Z.compare_spec ex e3) as [E|E|E]; auto; [|lia].
  specialize (V E). change (Pos.compare_cont Eq mx p) with (mx ?= p)%positive.
  destruct (Pos.compare_spec mx p); auto; lia.
Qed.


(** A value below a float does not round above it. *)
Lemma binary_round_aux_le mx ex M e l :
  fexp prec emax (Zdigits2 (Z.pos mx) + ex) = ex -> ex <= emax - prec ->
  e <= ex -> 0 < M < Z.pos mx * 2 ^ (ex - e) ->
  SFleb (binary_round_aux prec emax false M e l) (S754_finite false mx ex) = true.
Proof.
  intros Hc Hb He HM.
  assert (Hp : 0 < 2 ^ (ex - e)) by (apply Z.pow_pos_nonneg; lia).
  assert (HD : Zdigits2 M <= Zdigits2 (Z.pos mx) + (ex - e)).
  { rewrite <- Zdigits2_mul_pow2 by lia. apply Zdigits2_le. lia. }
  pose proof (Zdigits2_pos (Z.pos mx) ltac:(lia)) as Hdx.
  round_digits false M e l.
  rewrite fexp64 in *.
  assert (E1 : e1 <= ex) by lia.
  assert (Hp1 : 0 < 2 ^ (ex - e1)) by (apply Z.pow_pos_nonneg; lia).
  assert (V1 : m1 < Z.pos mx * 2 ^ (ex - e1)).
  { unfold shifted in H1. destruct (0 <? _) eqn:K in H1; inversion H1; subst.
    - apply Z.ltb_lt in K.
      set (k := Z.max (Zdigits2 M + e - 53) (-1074) - e) in *.
      apply Z.div_lt_upper_bound; [apply Z.pow_pos_nonneg; lia|].
      replace (ex - e) with (k + (ex - (e + k))) in HM by lia.
      rewrite Z.pow_add_r in HM by lia. lia.
    - lia. }
  assert (V2 : m2 <= Z.pos mx * 2 ^ (ex - e1)) by lia.
  assert (D2 : Zdigits2 m2 <= Zdigits2 (Z.pos mx) + (ex - e1)).
  { rewrite <- Zdigits2_mul_pow2 by lia. apply Zdigits2_le. lia. }
  assert (E3 : e3 <= ex) by lia.
  assert (V : e3 = ex -> m3 <= Z.pos mx).
  { intros E. unfold shifted in H3. destruct (0 <? _) eqn:K in H3; inversion H3; subst.
    - apply Z.ltb_lt in K.
      set (k := Z.max (Zdigits2 m2 + e1 - 53) (-1074) - e1) in *.
      replace (e1 + k - e1) with k in V2 by lia.
      apply Z.div_le_upper_bound; [apply Z.pow_pos_nonneg; lia|]. lia.
    - rewrite Z.sub_diag in V2. lia. }
  unfold pack. destruct m3 as [|p|p]; [reflexivity| |lia].
  replace (e3 <=? emax - prec) with true by (symmetry; apply Z.leb_le; lia).
  unfold SFleb, SFcompare. destruct (Z.compare_spec e3 ex) as [E|E|E]; auto; [|lia].
  specialize (V E). change (Pos.compare_cont Eq p mx) with (p ?= mx)%positive.
  destruct (Pos.compare_spec p mx); auto; lia.
Qed.

(** A negative value rounds to a float that is not above a positive
    one. *)
Lemma binary_round_aux_neg_le mx ex M e l :
  0 < M ->
  SFleb (binary_round_aux prec emax true M e l) (S754_finite false mx ex) = true.
Proof.
  intros HM. round_digits true M e l.
  unfold pack. destruct m3 as [|p|p]; [reflexivity| |lia].
  now destruct (e3 <=? emax - prec).
Qed.

Lemma binary_round_ge mx ex M e :
  fexp prec emax (Zdigits2 (Z.pos mx) + ex) = ex ->
  e <= ex -> Z.pos mx * 2 ^ (ex - e) <= Z.pos M ->
  SFleb (S754_finite false mx ex) (binary_round prec emax false M e) = true.
Proof.
  intros Hc He HM. unfold binary_round.
  pose proof (shl_align_value M e
                (fexp prec emax (Z.pos (digits2_pos M) + e))) as H.
  destruct (shl_align _ _ _) as [mz ez]. destruct H as (H1 & H2 & _).
  apply binary_round_aux_ge; [exact Hc|lia|]. rewrite H2.
  replace (ex - ez) with ((ex - e) + (e - ez)) by lia.
  rewrite Z.pow_add_r by lia.
  assert (0 < 2 ^ (e - ez)) by (apply Z.pow_pos_nonneg; lia). nia.
Qed.

Lemma binary_round_le mx ex M e :
  fexp prec emax (Zdigits2 (Z.pos mx) + ex) = ex -> ex <= emax - prec ->
  e <= ex -> Z.pos M < Z.pos mx * 2 ^ (ex - e) ->
  SFleb (binary_round prec emax false M e) (S754_finite false mx ex) = true.
Proof.
  intros Hc Hb He HM. unfold binary_round.
  pose proof (shl_align_value M e
                (fexp prec emax (Z.pos (digits2_pos M) + e))) as H.
  destruct (shl_align _ _ _) as [mz ez]. destruct H as (H1 & H2 & _).
  apply binary_round_aux_le; [exact Hc|exact Hb|lia|]. rewrite H2.
  replace (ex - ez) with ((ex - e) + (e - ez)) by lia.
  rewrite Z.pow_add_r by lia.
  assert (0 < 2 ^ (e - ez)) by (apply Z.pow_pos_nonneg; lia). nia.
Qed.

Lemma binary_round_neg_le mx ex M e :
  SFleb (binary_round prec emax true M e) (S754_finite false mx ex) = true.
Proof.
  unfold binary_round. destruct (shl_align _ _ _) as [mz ez].
  apply binary_round_aux_neg_le. lia.
Qed.

Lemma valid_binary_finite s m e :
  valid_binary (S754_finite s m e) = true ->
  fexp prec emax (Zdigits2 (Z.pos m) + e) = e /\ e <= emax - prec.
Proof.
  simpl. unfold bounded, canonical_mantissa. intros H.
  apply andb_prop in H as [H1 H2]. apply Z.eqb_eq in H1. apply Z.leb_le in H2.
  auto.
Qed.

(** Adding a positive float to a positive float does not lower it. *)
Lemma SFadd_pos_ge mx ex my ey :
  valid_binary (S754_finite false mx ex) = true ->
  SFleb (S754_finite false mx ex)
    (SFadd prec emax (S754_finite false mx ex) (S754_finite false my ey)) = true.
Proof.
  intros Hv. apply valid_binary_finite in Hv as [Hc Hb].
  unfold SFadd. set (ez := Z.min ex ey).
  pose proof (shl_align_value mx ex ez) as Hx.
  destruct (shl_align mx ex ez) as [a ea]. destruct Hx as (_ & Hx & Hea).
  rewrite (Hea ltac:(lia)) in Hx. simpl.
  apply binary_round_ge; [exact Hc|lia|]. lia.
Qed.

(** Adding a negative float to a positive float does not raise it. *)
Lemma SFadd_neg_le mx ex my ey :
  valid_binary (S754_finite false mx ex) = true ->
  SFleb (SFadd prec emax (S754_finite false mx ex) (S754_finite true my ey))
    (S754_finite false mx ex) = true.
Proof.
  intros Hv. apply valid_binary_finite in Hv as [Hc Hb].
  unfold SFadd. set (ez := Z.min ex ey).
  pose proof (shl_align_value mx ex ez) as Hx.
  destruct (shl_align mx ex ez) as [a ea]. destruct Hx as (_ & Hx & Hea).
  rewrite (Hea ltac:(lia)) in Hx.
  destruct (shl_align my ey ez) as [b eb]. cbn [fst cond_Zopp].
  destruct (Z.pos a + - Z.pos b) as [|p|p] eqn:E; cbn [binary_normalize].
  - reflexivity.
  - apply binary_round_le; [exact Hc|exact Hb|lia|]. lia.
  - apply binary_round_neg_le.
Qed.

(** The same on the primitive floats, for a float that is at least
    1.3: it is positive, finite or infinite. *)
Lemma add_pos_ge x y my ey :
  Prim2SF y = S754_finite false my ey ->
  (1.3 <=? x)%float = true -> (x <=? x + y)%float = true.
Proof.
  intros Hy Hx. pose proof (Prim2SF_valid x) as Hv.
  pose proof (leb_1_3_at_least_one x Hx) as H1.
  rewrite leb_spec, add_spec, Hy.
  destruct (Prim2SF x) as [sx|[|]| |[|] mx ex]; cbn [at_least_one] in H1;
    try tauto; try reflexivity.
  now apply SFadd_pos_ge.
Qed.

Lemma add_neg_le x y my ey :
  Prim2SF y = S754_finite true my ey ->
  (1.3 <=? x)%float = true -> (x + y <=? x)%float = true.
Proof.
  intros Hy Hx. pose proof (Prim2SF_valid x) as Hv.
  pose proof (leb_1_3_at_least_one x Hx) as H1.
  rewrite leb_spec, add_spec, Hy.
  destruct (Prim2SF x) as [sx|[|]| |[|] mx ex]; cbn [at_least_one] in H1;
    try tauto; try reflexivity.
  now apply SFadd_neg_le.
Qed.

(** The order of the floats is transitive. *)
Lemma SFleb_trans a b c :
  SFleb a b = true -> SFleb b c = true -> SFleb a c = true.
Proof.
  unfold SFleb, SFcompare.
  destruct a as [[|]|[|]| |[|] ma ea]; destruct b as [[|]|[|]| |[|] mb eb];
    try discriminate; destruct c as [[|]|[|]| |[|] mc ec];
    try discriminate; try reflexivity;
    change (Pos.compare_cont Eq) with Pos.compare;
    repeat match goal with
      | |- context [Z.compare ?x ?y] => destruct (Z.compare_spec x y)
      | |- context [Pos.compare ?x ?y] => destruct (Pos.compare_spec x y)
      end; simpl; try discriminate; try reflexivity; intros; lia.
Qed.

Lemma leb_trans x y z :
  (x <=? y)%float = true -> (y <=? z)%float = true -> (x <=? z)%float = true.
Proof. rewrite !leb_spec. apply SFleb_trans. Qed.

End FloatOrderFacts.

(** ** Floats above an integer *)

Module FloatValueFacts.

Import PyFloatFacts PyDateFacts SchedulerFacts SessionFacts.
Import FloatOrderFacts.

Lemma value_le_at lo m1 e1 m2 e2 :
  lo <= e1 -> lo <= e2 ->
  (value_le m1 e1 m2 e2 <-> m1 * 2 ^ (e1 - lo) <= m2 * 2 ^ (e2 - lo)).
Proof.
  intros H1 H2. unfold value_le. set (mn := Z.min e1 e2).
  assert (Hmn : lo <= mn) by lia.
  replace (e1 - lo) with ((e1 - mn) + (mn - lo)) by lia.
  replace (e2 - lo) with ((e2 - mn) + (mn - lo)) by lia.
  rewrite !Z.pow_add_r by lia.
  assert (0 < 2 ^ (mn - lo)) by (apply Z.pow_pos_nonneg; lia).
  nia.
Qed.

Lemma value_le_elim lo m1 e1 m2 e2 :
  lo <= e1 -> lo <= e2 ->
  value_le m1 e1 m2 e2 -> m1 * 2 ^ (e1 - lo) <= m2 * 2 ^ (e2 - lo).
Proof. intros H1 H2. now apply value_le_at. Qed.

Lemma value_le_intro lo m1 e1 m2 e2 :
  lo <= e1 -> lo <= e2 ->
  m1 * 2 ^ (e1 - lo) <= m2 * 2 ^ (e2 - lo) -> value_le m1 e1 m2 e2.
Proof. intros H1 H2. now apply value_le_at. Qed.

Lemma value_le_mono_r m1 e1 m2 m2' e2 :
  m2 <= m2' -> value_le m1 e1 m2 e2 -> value_le m1 e1 m2' e2.
Proof.
  unfold value_le. intros H.
  assert (0 < 2 ^ (e2 - Z.min e1 e2)) by (apply Z.pow_pos_nonneg; lia).
  nia.
Qed.

(** A right shift to the exponent of the format keeps a value above an
    integer of at most 53 bits above it. *)
Lemma shifted_at_least n m e :
  1 <= n <= 2 ^ 53 -> 0 < m -> value_le n 0 m e ->
  let '(m', e') := shifted m e (fexp prec emax (Zdigits2 m + e) - e) in
  0 < m' /\ value_le n 0 m' e'.
Proof.
  intros Hn Hm Hv. rewrite fexp64. unfold shifted.
  set (k := Z.max (Zdigits2 m + e - 53) (-1074) - e).
  destruct (0 <? k) eqn:K; [|auto].
  apply Z.ltb_lt in K.
  assert (HP : 0 < 2 ^ k) by (apply Z.pow_pos_nonneg; lia).
  destruct (Z_le_gt_dec (e + k) 0) as [E|E].
  - apply (value_le_elim e) in Hv; [|lia|lia].
    rewrite Z.sub_diag, Z.pow_0_r, Z.mul_1_r in Hv.
    replace (0 - e) with (- (e + k) + k) in Hv by lia.
    rewrite Z.pow_add_r in Hv by lia.
    assert (H0 : 0 < 2 ^ (- (e + k))) by (apply Z.pow_pos_nonneg; lia).
    assert (Hq : n * 2 ^ (- (e + k)) <= m / 2 ^ k).
    { apply Z.div_le_lower_bound; lia. }
    split; [nia|].
    apply (value_le_intro (e + k)); [lia|lia|].
    rewrite Z.sub_diag, Z.pow_0_r, Z.mul_1_r.
    replace (0 - (e + k)) with (- (e + k)) by lia. exact Hq.
  - assert (Hk : k = Zdigits2 m - 53) by lia.
    assert (Hd : Zdigits2 (m / 2 ^ k) = 53).
    { rewrite Zdigits2_div_pow2 by lia. lia. }
    assert (Hm' : 2 ^ 52 <= m / 2 ^ k).
    { destruct (Z.eq_dec (m / 2 ^ k) 0) as [E0|E0];
        [rewrite E0 in Hd; discriminate|].
      assert (0 <= m / 2 ^ k) by (apply Z.div_pos; lia).
      rewrite Zdigits2_log2 in Hd by lia.
      replace 52 with (Z.log2 (m / 2 ^ k)) by lia.
      apply Z.log2_spec. lia. }
    split; [lia|].
    apply (value_le_intro 0); [lia|lia|].
    rewrite !Z.sub_0_r, Z.pow_0_r, Z.mul_1_r.
    assert (2 ^ 1 <= 2 ^ (e + k)) by (apply Z.pow_le_mono_r; lia).
    change (2 ^ 1) with 2 in *. change (2 ^ 52) with 4503599627370496 in *.
    change (2 ^ 53) with 9007199254740992 in *. nia.
Qed.

(** Rounding keeps a value above an integer of at most 53 bits above
    it. *)
Lemma binary_round_aux_at_least n M e l :
  1 <= n <= 2 ^ 53 -> 0 < M -> value_le n 0 M e ->
  at_least n (binary_round_aux prec emax false M e l).
Proof.
  intros Hn HM Hv.
  destruct (binary_round_aux_spec false M e l ltac:(lia))
    as (m1 & e1 & m2 & m3 & e3 & H1 & H2 & H3 & ->).
  pose proof (shifted_at_least n M e Hn HM Hv) as S1.
  rewrite <- H1 in S1. destruct S1 as [P1 V1].
  assert (V2 : value_le n 0 m2 e1)
    by (apply (value_le_mono_r _ _ m1); [lia|exact V1]).
  pose proof (shifted_at_least n m2 e1 Hn ltac:(lia) V2) as S2.
  rewrite <- H3 in S2. destruct S2 as [P3 V3].
  unfold pack. destruct m3 as [|p|p]; try lia.
  destruct (e3 <=? emax - prec); simpl; auto.
Qed.

Lemma binary_round_at_least n M e :
  1 <= n <= 2 ^ 53 -> value_le n 0 (Z.pos M) e ->
  at_least n (binary_round prec emax false M e).
Proof.
  intros Hn Hv. unfold binary_round.
  pose proof (shl_align_value M e
                (fexp prec emax (Z.pos (digits2_pos M) + e))) as H.
  destruct (shl_align _ _ _) as [mz ez]. destruct H as (H1 & H2 & _).
  apply binary_round_aux_at_least; [exact Hn|lia|].
  set (lo := Z.min 0 ez).
  apply (value_le_elim lo) in Hv; [|lia|lia].
  apply (value_le_intro lo); [lia|lia|]. rewrite H2.
  replace (e - lo) with ((e - ez) + (ez - lo)) in Hv by lia.
  rewrite Z.pow_add_r in Hv by lia. lia.
Qed.

Lemma float_of_int_at_least n i x :
  1 <= n <= 2 ^ 53 -> n <= i -> float_of_int i = Ok x ->
  at_least n (Prim2SF x).
Proof.
  intros Hn Hi Hx. rewrite (float_of_int_spec i x Hx).
  destruct i as [|p|p]; try lia. simpl binary_normalize.
  apply binary_round_at_least; [exact Hn|].
  apply (value_le_intro 0); [lia|lia|]. rewrite Z.sub_diag, Z.pow_0_r. lia.
Qed.

Lemma at_least_one_value s : at_least_one s -> at_least 1 s.
Proof.
  destruct s as [sx|[|]| |[|] m e]; cbn [at_least_one at_least]; auto.
  intros H. change (Z.pos (digits2_pos m)) with (Zdigits2 (Z.pos m)) in H.
  rewrite Zdigits2_log2 in H by lia.
  pose proof (Z.log2_spec (Z.pos m) ltac:(lia)) as [L _].
  apply (value_le_intro (Z.min 0 e)); [lia|lia|].
  destruct (Z_le_gt_dec 0 e) as [E|E].
  - rewrite Z.min_l by lia. rewrite !Z.sub_0_r, Z.pow_0_r.
    assert (0 < 2 ^ e) by (apply Z.pow_pos_nonneg; lia). nia.
  - rewrite Z.min_r by lia. rewrite Z.sub_diag, Z.pow_0_r.
    assert (2 ^ (0 - e) <= 2 ^ Z.log2 (Z.pos m))
      by (apply Z.pow_le_mono_r; lia).
    lia.
Qed.

Lemma SFmul_at_least n x y :
  1 <= n <= 2 ^ 53 ->
  at_least n x -> at_least 1 y -> at_least n (SFmul prec emax x y).
Proof.
  intros Hn.
  destruct x as [sx|[|]| |[|] mx ex]; cbn [at_least]; try tauto;
  destruct y as [sy|[|]| |[|] my ey]; cbn [at_least SFmul xorb]; try tauto.
  intros Hx Hy. apply binary_round_aux_at_least; [exact Hn|lia|].
  set (l1 := Z.min 0 ex). set (l2 := Z.min 0 ey).
  apply (value_le_elim l1) in Hx; [|lia|lia].
  apply (value_le_elim l2) in Hy; [|lia|lia].
  apply (value_le_intro (l1 + l2)); [lia|lia|].
  replace (0 - (l1 + l2)) with ((0 - l1) + (0 - l2)) by lia.
  replace (ex + ey - (l1 + l2)) with ((ex - l1) + (ey - l2)) by lia.
  rewrite !Z.pow_add_r by lia. rewrite Pos2Z.inj_mul.
  assert (HA : 0 < 2 ^ (0 - l1)) by (apply Z.pow_pos_nonneg; lia).
  assert (HC : 0 < 2 ^ (0 - l2)) by (apply Z.pow_pos_nonneg; lia).
  assert (HB : 0 < 2 ^ (ex - l1)) by (apply Z.pow_pos_nonneg; lia).
  assert (HD : 0 < 2 ^ (ey - l2)) by (apply Z.pow_pos_nonneg; lia).
  set (A := 2 ^ (0 - l1)) in *. set (C := 2 ^ (0 - l2)) in *.
  set (B := 2 ^ (ex - l1)) in *. set (D := 2 ^ (ey - l2)) in *.
  assert (S1 : n * A * C <= Z.pos mx * B * C)
    by (apply Z.mul_le_mono_nonneg_r; lia).
  assert (S2 : Z.pos mx * B * C <= Z.pos mx * B * (Z.pos my * D))
    by (apply Z.mul_le_mono_nonneg_l; lia).
  replace (n * (A * C)) with (n * A * C) by ring.
  replace (Z.pos mx * Z.pos my * (B * D))
    with (Z.pos mx * B * (Z.pos my * D)) by ring.
  lia.
Qed.

Lemma round_half_even_at_least n m e :
  value_le n 0 (Z.pos m) e -> n <= round_half_even m e.
Proof.
  intros H. destruct e as [|p|p]; simpl round_half_even.
  - apply (value_le_elim 0) in H; [|lia|lia].
    rewrite Z.sub_diag, Z.pow_0_r in H. lia.
  - apply (value_le_elim 0) in H; [|lia|lia].
    rewrite !Z.sub_0_r, Z.pow_0_r in H. lia.
  - apply (value_le_elim (Z.neg p)) in H; [|lia|lia].
    rewrite Z.sub_diag, Z.pow_0_r, Z.mul_1_r in H.
    change (0 - Z.neg p) with (Z.pos p) in H.
    assert (Hp : 0 < 2 ^ Z.pos p) by (apply Z.pow_pos_nonneg; lia).
    assert (Hq : n <= Z.pos m / 2 ^ Z.pos p)
      by (apply Z.div_le_lower_bound; lia).
    destruct (_ ?= _); [destruct (Z.even _)| |]; lia.
Qed.

Lemma py_round_at_least n x :
  at_least n (Prim2SF x) ->
  py_round x = Raise OverflowError \/ exists r, py_round x = Ok r /\ n <= r.
Proof.
  unfold py_round.
  destruct (Prim2SF x) as [s|[|]| |[|] m e]; cbn [at_least]; try tauto.
  intros H. right. eexists; split; [reflexivity|].
  now apply round_half_even_at_least.
Qed.

(** The interval written by a successful update fits a [timedelta]. *)
Lemma schedule_interval_bound today q c c' :
  schedule today q c = Ok c' ->
  exists reps, next_interval q c = Ok (reps, interval c') /\
               Z.abs (interval c') <= 999999999.
Proof.
  unfold schedule.
  destruct (next_interval q c) as [[reps i]|e] eqn:E1; [|discriminate].
  simpl. destruct (next_ease_factor q (ease_factor c)) as [ef|e] eqn:E2;
    [|discriminate].
  simpl. destruct (timedelta i) as [j|e] eqn:Ej; [|discriminate].
  apply timedelta_inv in Ej as [-> Hi].
  simpl. destruct (date_add today i) as [d|e] eqn:E3; [|discriminate].
  simpl. intros [= <-]. simpl. eauto.
Qed.

End FloatValueFacts.

(** ** Properties of [review_card] *)

Import ReviewFacts LoopFacts OutcomeFacts CompletedFacts MergeFacts.
Import CrashFacts.

(** X1: the quality prompt skips invalid answers: any run of lines of
    ASCII text that are not "1" to "4" once stripped, typed before the
    answer, changes neither the score read, nor the card update, nor the
    input left. *)
Theorem invalid_answers_are_skipped bad rest today card :
  Forall invalid_answer bad ->
  read_quality (bad ++ rest) = read_quality rest /\
  review_card today card (bad ++ rest) = review_card today card rest.
Proof.
  intros Hbad.
  assert (H : read_quality (bad ++ rest) = read_quality rest).
  { induction Hbad as [|ev bad (s & -> & _ & Hs) _ IH]; [reflexivity|].
    simpl. now rewrite Hs. }
  split; [exact H|]. unfold review_card. now rewrite H.
Qed.

Lemma invalid_answers_are_skipped_witness :
  Forall invalid_answer [Line "5"; Line "good"; Line ""] /\
  review_card new_year_2024 easy_card
    ([Line "5"; Line "good"; Line ""] ++ [Line " 4 "])
  = (Ok easy_card_reviewed, []).
Proof.
  assert (Hbad : Forall invalid_answer [Line "5"; Line "good"; Line ""]).
  { repeat (constructor;
              [eexists; split; [reflexivity|split; reflexivity]|]).
    constructor. }
  split; [exact Hbad|].
  rewrite (proj2 (invalid_answers_are_skipped _ [Line " 4 "] new_year_2024
                    easy_card Hbad)).
  vm_compute. reflexivity.
Defined.

(** X2: whatever is typed in ASCII, [review_card] ends in one of three
    ways: it has skipped invalid answers and applied the score of the
    first valid one, a score among 0, 3, 4, 5; or it has skipped invalid
    answers and met Ctrl-C ([KeyboardInterrupt]); or it has skipped
    invalid answers up to the end of input ([EOFError]).  In the last
    two cases no card is updated. *)
Theorem review_card_outcomes today card stdin r rest :
  Forall ascii_event stdin ->
  review_card today card stdin = (r, rest) ->
  exists bad,
    Forall invalid_answer bad /\
    ((exists s q, stdin = bad ++ Line s :: rest /\
                  QUALITY_MAP (PyStr.strip s) = Some q /\ valid_score q /\
                  r = schedule today q card) \/
     (stdin = bad ++ CtrlC :: rest /\ r = Raise KeyboardInterrupt) \/
     (stdin = bad /\ rest = [] /\ r = Raise EOFError)).
Proof.
  intros Ha. unfold review_card.
  destruct (read_quality stdin) as [[q|e] rest'] eqn:E; intros [= <- <-];
    destruct (read_quality_inv _ _ _ E) as (bad & Hbad & Hcases);
    exists bad.
  - destruct Hcases as [(s & q' & -> & Hq & [= <-])|[[_ [=]]|(_ & _ & [=])]].
    apply Forall_app in Ha as [Ha _].
    split; [now apply rejected_ascii|].
    left. exists s, q. repeat split; auto. eapply QUALITY_MAP_valid; eauto.
  - destruct Hcases as [(s & q' & _ & _ & [=])|[[-> [= ->]]|(-> & -> & [= ->])]].
    + apply Forall_app in Ha as [Ha _].
      split; [now apply rejected_ascii|]. right. left. auto.
    + split; [now apply rejected_ascii|]. right. right. auto.
Qed.

Lemma review_card_outcomes_witness :
  (Forall ascii_event [Line "x"; CtrlC; Line "4"] /\
   review_card new_year_2024 easy_card [Line "x"; CtrlC; Line "4"]
   = (Raise KeyboardInterrupt, [Line "4"])) /\
  exists bad,
    Forall invalid_answer bad /\
    ((exists s q, [Line "x"; CtrlC; Line "4"] = bad ++ Line s :: [Line "4"] /\
                  QUALITY_MAP (PyStr.strip s) = Some q /\ valid_score q /\
                  Raise KeyboardInterrupt = schedule new_year_2024 q easy_card) \/
     ([Line "x"; CtrlC; Line "4"] = bad ++ CtrlC :: [Line "4"] /\
      @Raise Card KeyboardInterrupt = Raise KeyboardInterrupt) \/
     ([Line "x"; CtrlC; Line "4"] = bad /\ [Line "4"] = [] /\
      @Raise Card KeyboardInterrupt = Raise EOFError)).
Proof.
  assert (Ha : Forall ascii_event [Line "x"; CtrlC; Line "4"])
    by (repeat constructor).
  assert (H : review_card new_year_2024 easy_card [Line "x"; CtrlC; Line "4"]
              = (Raise KeyboardInterrupt, [Line "4"])) by reflexivity.
  split; [auto|].
  exact (review_card_outcomes _ _ _ _ _ Ha H).
Defined.

(** X3: a review of a card with [interval >= 1] and
    [ease_factor >= 1.3], with a valid score, raises no exception other
    than [OverflowError] (the interval or the next review date is out of
    range); in particular it never raises [ValueError]. *)
Theorem well_formed_review_raises_only_overflow today q c e :
  valid_score q ->
  1 <= interval c -> (1.3 <=? ease_factor c)%float = true ->
  schedule today q c = Raise e -> e = OverflowError.
Proof.
  intros Hq Hi He. unfold schedule.
  destruct (next_interval q c) as [[reps i]|e0] eqn:E1; simpl.
  2:{ intros [= <-]. unfold next_interval in E1.
      destruct (q <? 3); [discriminate|].
      destruct (repetitions c =? 0); [discriminate|].
      destruct (repetitions c =? 1); [discriminate|].
      destruct (float_of_int (interval c)) as [x|e1] eqn:Ex; simpl in E1.
      - pose proof (float_of_int_at_least_one _ _ Hi Ex) as A1.
        pose proof (leb_1_3_at_least_one _ He) as A2.
        destruct (py_round_at_least_one _ (mul_at_least_one _ _ A1 A2))
          as [E|(r & E & _)]; rewrite E in E1; simpl in E1; congruence.
      - injection E1 as <-. eapply float_of_int_raises; eauto. }
  destruct (next_ease_factor_total q (ease_factor c) Hq) as [ef ->]. simpl.
  unfold timedelta. destruct (Z.abs i <=? 999999999); simpl.
  2:{ now intros [= <-]. }
  unfold date_add. destruct (_ && _); simpl; [discriminate|].
  now intros [= <-].
Qed.

Lemma well_formed_review_raises_only_overflow_witness :
  (valid_score 5 /\ 1 <= interval far_card /\
   (1.3 <=? ease_factor far_card)%float = true /\
   schedule new_year_2024 5 far_card = Raise OverflowError) /\
  OverflowError = OverflowError.
Proof.
  assert (Hv : valid_score 5) by (right; right; right; reflexivity).
  assert (Hi : 1 <= interval far_card) by (simpl; lia).
  assert (He : (1.3 <=? ease_factor far_card)%float = true) by reflexivity.
  assert (Hs : schedule new_year_2024 5 far_card = Raise OverflowError)
    by (vm_compute; reflexivity).
  split; [auto|].
  exact (well_formed_review_raises_only_overflow _ _ _ _ Hv Hi He Hs).
Defined.

(** X4: on any day up to 9999-12-25, a failing review (score 0) and a
    first or second successful review ([repetitions] 0 or 1) succeed on
    every card, whatever its stored interval and ease factor (negative,
    NaN, ...), and the card they return satisfies all three card
    invariants. *)
Theorem early_review_succeeds_and_restores_invariants today q c :
  valid_score q -> valid_date today -> today + 6 <= MAXORDINAL ->
  q < 3 \/ repetitions c = 0 \/ repetitions c = 1 ->
  exists c', schedule today q c = Ok c' /\ card_inv c'.
Proof.
  intros Hq Ht Hm Hcase.
  destruct (next_ease_factor_total q (ease_factor c) Hq) as [ef He].
  assert (Hni : exists reps i, next_interval q c = Ok (reps, i) /\
                               0 <= reps /\ 1 <= i <= 6).
  { unfold next_interval. destruct (q <? 3) eqn:Eq.
    - exists 0, 1. split; [reflexivity|lia].
    - apply Z.ltb_ge in Eq.
      destruct Hcase as [H|[H|H]]; [lia| |]; rewrite H; simpl.
      + exists 1, 1. split; [reflexivity|lia].
      + exists 2, 6. split; [reflexivity|lia]. }
  destruct Hni as (reps & i & Hni & Hr & Hi).
  eexists. split.
  - apply schedule_ok; eauto. unfold valid_date in *. lia.
  - unfold card_inv. simpl. split; [|lia].
    eapply next_ease_factor_floor; eauto.
Qed.

Lemma early_review_succeeds_and_restores_invariants_witness :
  (valid_score 0 /\ valid_date new_year_2024 /\
   new_year_2024 + 6 <= MAXORDINAL /\
   (0 < 3 \/ repetitions broken_card = 0 \/ repetitions broken_card = 1)) /\
  exists c', schedule new_year_2024 0 broken_card = Ok c' /\ card_inv c'.
Proof.
  assert (Hv : valid_score 0) by (left; reflexivity).
  assert (Ht : valid_date new_year_2024)
    by (unfold valid_date, new_year_2024, MAXORDINAL; lia).
  assert (Hm : new_year_2024 + 6 <= MAXORDINAL)
    by (unfold new_year_2024, MAXORDINAL; lia).
  assert (Hc : 0 < 3 \/ repetitions broken_card = 0 \/ repetitions broken_card = 1)
    by (left; lia).
  split; [auto|].
  exact (early_review_succeeds_and_restores_invariants _ _ broken_card
           Hv Ht Hm Hc).
Defined.

(** X5: after a review on day [today], the card is due on a day [d]
    exactly when [d] is at least [interval] days after [today], for the
    interval the review has just written. *)
Theorem reviewed_card_due_after_interval today q c c' d :
  schedule today q c = Ok c' -> valid_date d ->
  (is_due (isoformat d) c' = true <-> today + interval c' <= d).
Proof.
  intros H Hd.
  apply schedule_inv in H as (reps & i & ef & d' & _ & _ & H3 & ->).
  apply date_add_inv in H3 as [-> Hd']. unfold is_due. simpl.
  rewrite isoformat_le by assumption. apply Z.leb_le.
Qed.

Lemma reviewed_card_due_after_interval_witness :
  (schedule new_year_2024 5 easy_card = Ok easy_card_reviewed /\
   valid_date (new_year_2024 + 14)) /\
  (is_due (isoformat (new_year_2024 + 14)) easy_card_reviewed = true
   <-> new_year_2024 + interval easy_card_reviewed <= new_year_2024 + 14).
Proof.
  assert (Hs : schedule new_year_2024 5 easy_card = Ok easy_card_reviewed)
    by (vm_compute; reflexivity).
  assert (Hd : valid_date (new_year_2024 + 14))
    by (unfold valid_date, new_year_2024, MAXORDINAL; lia).
  split; [auto|].
  exact (reviewed_card_due_after_interval _ _ _ _ _ Hs Hd).
Defined.

(** X6: a review with score 4 (Good) never changes the ease factor of a
    card whose ease factor is at least 1.3, whatever that float is: the
    increment of line 63 is [+0.0] and the floor does not apply. *)
Theorem good_review_keeps_ease_factor today c c' :
  (1.3 <=? ease_factor c)%float = true ->
  schedule today 4 c = Ok c' -> ease_factor c' = ease_factor c.
Proof.
  intros He H.
  apply schedule_inv in H as (reps & i & ef & d & _ & H2 & _ & ->). simpl.
  unfold next_ease_factor in H2.
  change (float_of_int (5 - 4)) with (Ok 1%float) in H2. simpl in H2.
  injection H2 as <-.
  change (0.1 - 1 * (0.08 + 1 * 0.02))%float with 0%float.
  rewrite add_zero_r by now apply leb_1_3_not_neg_zero.
  now apply py_max_1_3_id.
Qed.

Lemma good_review_keeps_ease_factor_witness :
  ((1.3 <=? ease_factor easy_card)%float = true /\
   schedule new_year_2024 4 easy_card = Ok easy_card_good) /\
  ease_factor easy_card_good = ease_factor easy_card.
Proof.
  assert (He : (1.3 <=? ease_factor easy_card)%float = true) by reflexivity.
  assert (Hs : schedule new_year_2024 4 easy_card = Ok easy_card_good)
    by (vm_compute; reflexivity).
  split; [auto|].
  exact (good_review_keeps_ease_factor new_year_2024 easy_card easy_card_good
           He Hs).
Defined.

(** ** Properties of [run_review_session] *)

(** X7: a session that writes the deck file, completed or interrupted,
    writes a deck of the same length with the same (front, back) pair at
    every position, whatever the order in which the due cards were
    shown: no card is added, dropped or moved, and no question or answer
    is changed. *)
Theorem session_preserves_keys today shuffle stored stdin saved :
  (forall l, shuffle l ≡ₚ l) ->
  written (run_review_session today shuffle stored stdin) = Some saved ->
  key <$> saved = key <$> stored.
Proof.
  intros Hperm Hw.
  pose proof (run_review_session_inv today shuffle stored stdin) as H.
  cbv zeta in H.
  assert (Hs : exists e h' updated,
             review_loop today
               (shuffle (select_due stored (isoformat today) (seq 0 (length stored))))
               stored [] stdin = (e, h', updated) /\
             saved = save_deck h' (merge h' updated (seq 0 (length stored)))).
  { destruct (run_review_session today shuffle stored stdin); try discriminate;
      injection Hw as ->.
    - destruct H as (_ & h' & u & Hl & ->). eauto.
    - destruct H as (_ & x & h' & u & _ & Hl & ->). eauto. }
  destruct Hs as (e & h' & updated & Hloop & ->).
  apply session_loop_inv in Hloop as (k & _ & _ & _ & _ & _ & _ & _ & _ & Hkey);
    [|exact Hperm].
  apply list_eq. intros i. rewrite !list_lookup_fmap.
  destruct (decide (i < length stored)%nat) as [Hi|Hi].
  - rewrite saved_lookup by assumption.
    rewrite (list_lookup_lookup_total_lt stored i Hi). simpl.
    now rewrite merged_key, Hkey.
  - rewrite (lookup_ge_None_2 stored) by lia.
    rewrite lookup_ge_None_2; [reflexivity|]. rewrite saved_length. lia.
Qed.

Lemma session_preserves_keys_witness :
  ((forall l : list nat, id l ≡ₚ l) /\
   written (run_review_session new_year_2024 id duplicate_deck one_answer)
   = Some [dup_due_reviewed; other_due; dup_due_reviewed]) /\
  key <$> [dup_due_reviewed; other_due; dup_due_reviewed]
  = key <$> duplicate_deck.
Proof.
  assert (Hperm : forall l : list nat, id l ≡ₚ l) by reflexivity.
  assert (Hw : written (run_review_session new_year_2024 id duplicate_deck
                          one_answer)
               = Some [dup_due_reviewed; other_due; dup_due_reviewed])
    by (vm_compute; reflexivity).
  split; [auto|].
  exact (session_preserves_keys _ _ _ _ _ Hperm Hw).
Defined.

(** X8: when the update of a due card raises ([OverflowError] or
    [ValueError], lines 59-66) for the score typed, after the cards
    shown before it have been updated successfully, the exception is
    not caught by the session (lines 135-144 catch Ctrl-C and the end of
    input only): the session ends with this exception and the deck is
    not written, so the updates made earlier in the session are lost.
    The scores are read off lines of ASCII text. *)
Theorem update_error_ends_session_unsaved today shuffle stored stdin k l q e :
  (forall l, shuffle l ≡ₚ l) ->
  Forall ascii_event stdin ->
  let due := shuffle (select_due stored (isoformat today) (seq 0 (length stored))) in
  let qs := ratings (length due) stdin in
  due !! k = Some l -> qs !! k = Some q ->
  (forall j l' q', (j < k)%nat -> due !! j = Some l' -> qs !! j = Some q' ->
     exists c', schedule today q' (stored !!! l') = Ok c') ->
  schedule today q (stored !!! l) = Raise e ->
  run_review_session today shuffle stored stdin = Uncaught e.
Proof.
  intros Hperm _ due qs Hk Hq Hok Hr.
  destruct (select_due_seq stored (isoformat today) (length stored)) as [Hnd0 _].
  assert (Hnd : NoDup due) by (unfold due; now rewrite Hperm).
  destruct (review_loop_raises today due stored [] stdin k l q e Hnd Hk Hq Hok Hr)
    as (h' & updated' & Hloop).
  rewrite run_review_session_due.
  - fold due. rewrite Hloop.
    destruct (schedule_raises _ _ _ _ Hr) as [-> | ->]; reflexivity.
  - intros Ed. unfold due in Hk. rewrite Ed in Hk.
    assert (Hnil : shuffle [] = []).
    { apply Permutation_nil_r. apply Hperm. }
    rewrite Hnil, lookup_nil in Hk. discriminate.
Qed.

Lemma update_error_ends_session_unsaved_witness :
  ((forall l : list nat, id l ≡ₚ l) /\
   Forall ascii_event crash_answers /\
   id (select_due crash_deck (isoformat new_year_2024)
         (seq 0 (length crash_deck))) !! 1%nat = Some 1%nat /\
   ratings
     (length (id (select_due crash_deck (isoformat new_year_2024)
                    (seq 0 (length crash_deck)))))
     crash_answers !! 1%nat = Some 5 /\
   schedule new_year_2024 4 (crash_deck !!! 0%nat) = Ok dup_due_reviewed /\
   schedule new_year_2024 5 (crash_deck !!! 1%nat) = Raise OverflowError) /\
  run_review_session new_year_2024 id crash_deck crash_answers
  = Uncaught OverflowError.
Proof.
  assert (Hperm : forall l : list nat, id l ≡ₚ l) by reflexivity.
  assert (Ha : Forall ascii_event crash_answers)
    by (repeat (constructor; [reflexivity|]); constructor).
  assert (Hk : id (select_due crash_deck (isoformat new_year_2024)
                     (seq 0 (length crash_deck))) !! 1%nat = Some 1%nat)
    by (vm_compute; reflexivity).
  assert (Hq : ratings
                 (length (id (select_due crash_deck (isoformat new_year_2024)
                                (seq 0 (length crash_deck)))))
                 crash_answers !! 1%nat = Some 5)
    by (vm_compute; reflexivity).
  assert (H0 : schedule new_year_2024 4 (crash_deck !!! 0%nat)
               = Ok dup_due_reviewed) by (vm_compute; reflexivity).
  assert (Hr : schedule new_year_2024 5 (crash_deck !!! 1%nat)
               = Raise OverflowError) by (vm_compute; reflexivity).
  split; [auto 10|].
  apply (update_error_ends_session_unsaved new_year_2024 id crash_deck
           crash_answers 1%nat 1%nat 5 OverflowError Hperm Ha Hk Hq);
    [|exact Hr].
  intros [|j] l' q' Hj Hl' Hq'; [|lia].
  vm_compute in Hl'. vm_compute in Hq'.
  injection Hl' as <-. injection Hq' as <-. eexists. exact H0.
Defined.

(** X9: in a deck without duplicate (front, back) pairs, a completed
    session writes, at each position, the card of that position
    reviewed once with a valid score if it was due, and the card
    unchanged if it was not. *)
Theorem completed_session_updates_due_cards today shuffle stored stdin saved :
  (forall l, shuffle l ≡ₚ l) ->
  NoDup (key <$> stored) ->
  run_review_session today shuffle stored stdin = Completed saved ->
  length saved = length stored /\
  forall l c, stored !! l = Some c ->
    (is_due (isoformat today) c = true ->
     exists q, valid_score q /\ exists c',
       schedule today q c = Ok c' /\ saved !! l = Some c') /\
    (is_due (isoformat today) c = false -> saved !! l = Some c).
Proof.
  intros Hperm Hkeys Hrun.
  pose proof (run_review_session_inv today shuffle stored stdin) as H.
  rewrite Hrun in H. cbv zeta in H. destruct H as (_ & h' & u & Hloop & ->).
  apply session_loop_inv in Hloop
    as (k & _ & -> & Hdone & _ & Hlen & Hdue & Hrev & Hsame & Hkey);
    [|exact Hperm].
  rewrite (Hdone eq_refl), firstn_all in *.
  split; [apply saved_length|].
  intros l c Hl.
  assert (Hlt : (l < length stored)%nat) by (eapply lookup_lt_Some; eauto).
  assert (Hc : stored !!! l = c) by now apply list_lookup_total_correct.
  rewrite saved_lookup by assumption.
  rewrite (merged_distinct_keys stored) by (auto; intros v Hv; now apply Hdue).
  set (due := shuffle (select_due stored (isoformat today) (seq 0 (length stored)))) in *.
  assert (Hin : l ∈ due <-> is_due (isoformat today) c = true).
  { unfold due. rewrite Hperm, list_elem_of_In, select_due_In, Hc, in_seq.
    split; [tauto|]. intros; split; [lia|assumption]. }
  split.
  - intros Hd. apply Hin in Hd. destruct (Hrev l Hd) as (q & Hq & Hs).
    rewrite Hc in Hs. eauto.
  - intros Hd. rewrite Hsame, Hc; [reflexivity|].
    intros Hl'. apply Hin in Hl'. congruence.
Qed.

Lemma completed_session_updates_due_cards_witness :
  ((forall l : list nat, id l ≡ₚ l) /\
   NoDup (key <$> distinct_deck) /\
   run_review_session new_year_2024 id distinct_deck two_answers
   = Completed distinct_deck_completed) /\
  length distinct_deck_completed = length distinct_deck /\
  forall l c, distinct_deck !! l = Some c ->
    (is_due (isoformat new_year_2024) c = true ->
     exists q, valid_score q /\ exists c',
       schedule new_year_2024 q c = Ok c' /\
       distinct_deck_completed !! l = Some c') /\
    (is_due (isoformat new_year_2024) c = false ->
     distinct_deck_completed !! l = Some c).
Proof.
  assert (Hperm : forall l : list nat, id l ≡ₚ l) by reflexivity.
  assert (Hnd : NoDup (key <$> distinct_deck))
    by (apply (bool_decide_unpack _); vm_compute; exact I).
  assert (Hrun : run_review_session new_year_2024 id distinct_deck two_answers
                 = Completed distinct_deck_completed)
    by (vm_compute; reflexivity).
  split; [auto|].
  exact (completed_session_updates_due_cards _ _ _ _ _ Hperm Hnd Hrun).
Defined.

(** X10: when the session is cancelled (Ctrl-C or end of input) before
    the first card is scored, the lines typed until then being ASCII
    text, the deck file is still rewritten, with exactly the cards it
    held, and the session counts as interrupted. *)
Theorem cancel_before_first_score_rewrites_deck today shuffle stored stdin :
  (forall l, shuffle l ≡ₚ l) ->
  Forall ascii_event stdin ->
  select_due stored (isoformat today) (seq 0 (length stored)) <> [] ->
  ratings 1 stdin = [] ->
  run_review_session today shuffle stored stdin = Interrupted stored.
Proof.
  intros Hperm _ Hdue Hr.
  set (due := shuffle (select_due stored (isoformat today) (seq 0 (length stored)))).
  destruct (select_due_seq stored (isoformat today) (length stored)) as [Hnd0 Hlt0].
  assert (Hnd : NoDup due) by (unfold due; now rewrite Hperm).
  assert (Hlt : forall l, l ∈ due -> (l < length stored)%nat).
  { intros l Hl. apply Hlt0. unfold due in Hl. now rewrite Hperm in Hl. }
  assert (Hq : ratings (length due) stdin = []) by now apply ratings_first_cancelled.
  destruct (review_loop_spec today due stored [] stdin Hnd Hlt)
    as (e & h' & Hloop & _ & Hcancel & Hlen & _ & Hsame).
  { intros j l q _. rewrite Hq, lookup_nil. discriminate. }
  rewrite Hq in Hloop, Hcancel, Hsame. simpl in Hloop, Hcancel, Hsame.
  assert (Hpos : (0 < length due)%nat).
  { unfold due. rewrite Hperm.
    destruct (select_due _ _ _); [congruence|simpl; lia]. }
  destruct (Hcancel Hpos) as (x & -> & Hx).
  assert (h' = stored) as ->.
  { apply lookup_total_ext; [exact Hlen|]. intros l. apply Hsame.
    apply not_elem_of_nil. }
  rewrite run_review_session_due by exact Hdue. fold due. rewrite Hloop.
  rewrite save_deck_unmerged. destruct Hx as [-> | ->]; reflexivity.
Qed.

Lemma cancel_before_first_score_rewrites_deck_witness :
  ((forall l : list nat, id l ≡ₚ l) /\
   Forall ascii_event [Line ""; Line "7"; CtrlC] /\
   select_due duplicate_deck (isoformat new_year_2024)
     (seq 0 (length duplicate_deck)) <> [] /\
   ratings 1 [Line ""; Line "7"; CtrlC] = []) /\
  run_review_session new_year_2024 id duplicate_deck
    [Line ""; Line "7"; CtrlC]
  = Interrupted duplicate_deck.
Proof.
  assert (Hperm : forall l : list nat, id l ≡ₚ l) by reflexivity.
  assert (Hdue : select_due duplicate_deck (isoformat new_year_2024)
                   (seq 0 (length duplicate_deck)) <> [])
    by (vm_compute; discriminate).
  assert (Hr : ratings 1 [Line ""; Line "7"; CtrlC] = []) by reflexivity.
  assert (Ha : Forall ascii_event [Line ""; Line "7"; CtrlC])
    by (repeat constructor).
  split; [auto|].
  exact (cancel_before_first_score_rewrites_deck _ _ _ _ Hperm Ha Hdue Hr).
Defined.

(** X11: when every due card of the deck has [interval >= 1] and
    [ease_factor >= 1.3], a second session on the day of a completed
    session finds nothing due, duplicate keys or not: every card shown
    has been moved at least one day ahead. *)
Theorem second_session_same_day_finds_nothing_due
    today shuffle stored stdin saved shuffle' stdin' :
  (forall l, shuffle l ≡ₚ l) ->
  valid_date today ->
  (forall c, c ∈ stored -> is_due (isoformat today) c = true ->
             1 <= interval c /\ (1.3 <=? ease_factor c)%float = true) ->
  run_review_session today shuffle stored stdin = Completed saved ->
  run_review_session today shuffle' saved stdin' = NothingDue.
Proof.
  intros Hperm Ht Hinv Hrun.
  pose proof (run_review_session_inv today shuffle stored stdin) as H.
  rewrite Hrun in H. cbv zeta in H. destruct H as (Hne & h' & u & Hloop & Hsaved).
  apply session_loop_inv in Hloop
    as (k & _ & -> & Hdone & _ & Hlen & Hdue & Hrev & Hsame & Hkey);
    [|exact Hperm].
  rewrite (Hdone eq_refl), firstn_all in *.
  set (due := shuffle (select_due stored (isoformat today) (seq 0 (length stored)))) in *.
  assert (Hlens : length saved = length stored)
    by (rewrite Hsaved; apply saved_length).
  assert (Hnot : forall l, (l < length stored)%nat ->
            is_due (isoformat today) (h' !!! l) = true -> False).
  { intros l Hl Hd. destruct (decide (l ∈ due)) as [Hin|Hout].
    - destruct (Hrev l Hin) as (q & _ & Hs).
      destruct (Hdue l Hin) as [_ Hdl].
      destruct (Hinv (stored !!! l)) as [Hi He]; auto.
      { apply list_elem_of_lookup_total_2. lia. }
      rewrite (schedule_not_due _ _ _ _ Ht Hi He Hs) in Hd. discriminate.
    - rewrite Hsame in Hd by assumption. apply Hout. unfold due.
      rewrite Hperm, list_elem_of_In, select_due_In, in_seq. split; [lia|exact Hd]. }
  assert (Hsel : select_due saved (isoformat today) (seq 0 (length saved)) = []).
  { unfold select_due. apply filter_nil_forall. intros l Hl.
    apply in_seq in Hl. rewrite Hlens in Hl.
    destruct (is_due _ _) eqn:Hd; [exfalso|reflexivity].
    assert (Hsl : saved !!! l = h' !!! merged h' due l).
    { apply list_lookup_total_correct. rewrite Hsaved. apply saved_lookup. lia. }
    rewrite Hsl in Hd.
    apply (Hnot (merged h' due l)); [|exact Hd].
    unfold merged.
    destruct (card_map h' due !! key (h' !!! l)) as [v|] eqn:E; simpl; [|lia].
    apply card_map_lookup_Some in E as [Hv _]. now apply Hdue. }
  unfold run_review_session. rewrite Hsel.
  destruct saved as [|c0 saved']; [|reflexivity].
  exfalso. simpl in Hlens. apply Hne. destruct stored; [reflexivity|discriminate].
Qed.

Lemma second_session_same_day_finds_nothing_due_witness :
  ((forall l : list nat, id l ≡ₚ l) /\
   valid_date new_year_2024 /\
   (forall c, c ∈ duplicate_deck ->
              is_due (isoformat new_year_2024) c = true ->
              1 <= interval c /\ (1.3 <=? ease_factor c)%float = true) /\
   run_review_session new_year_2024 id duplicate_deck two_answers
   = Completed duplicate_deck_completed) /\
  run_review_session new_year_2024 reverse duplicate_deck_completed one_answer
  = NothingDue.
Proof.
  assert (Hperm : forall l : list nat, id l ≡ₚ l) by reflexivity.
  assert (Ht : valid_date new_year_2024)
    by (unfold valid_date, new_year_2024, MAXORDINAL; lia).
  assert (Hinv : forall c, c ∈ duplicate_deck ->
            is_due (isoformat new_year_2024) c = true ->
            1 <= interval c /\ (1.3 <=? ease_factor c)%float = true).
  { intros c Hc _. apply list_elem_of_In in Hc.
    destruct Hc as [<-|[<-|[<-|[]]]]; (split; [simpl; lia|reflexivity]). }
  assert (Hrun : run_review_session new_year_2024 id duplicate_deck two_answers
                 = Completed duplicate_deck_completed)
    by (vm_compute; reflexivity).
  split; [auto|].
  exact (second_session_same_day_finds_nothing_due _ _ _ _ _ reverse one_answer
           Hperm Ht Hinv Hrun).
Defined.

(** ** Properties of the merge *)

(** X12: the merge keeps the length of the deck and leaves in place
    every card whose (front, back) pair is the pair of no updated
    card. *)
Theorem merge_keeps_cards_with_other_keys h updated_cards deck :
  length (merge h updated_cards deck) = length deck /\
  forall i l,
    deck !! i = Some l ->
    (forall u, u ∈ updated_cards -> key (h !!! u) <> key (h !!! l)) ->
    merge h updated_cards deck !! i = Some l.
Proof.
  rewrite merge_fmap. split; [apply length_fmap|].
  intros i l Hi Hk. rewrite list_lookup_fmap, Hi. simpl. f_equal.
  unfold merged.
  destruct (card_map h updated_cards !! key (h !!! l)) as [u|] eqn:E;
    [|reflexivity].
  apply card_map_lookup_Some in E as [Hu E]. now apply Hk in Hu.
Qed.

(** X13: when several updated cards have the same (front, back) pair,
    the merge puts the one reviewed last at every position of the deck
    that holds a card with this pair. *)
Theorem merge_last_reviewed_wins h earlier u later deck i l :
  (forall v, v ∈ later -> key (h !!! v) <> key (h !!! u)) ->
  deck !! i = Some l -> key (h !!! l) = key (h !!! u) ->
  merge h (earlier ++ u :: later) deck !! i = Some u.
Proof.
  intros Hlater Hi Hk. rewrite merge_fmap, list_lookup_fmap, Hi. simpl.
  unfold merged. now rewrite Hk, card_map_last_wins.
Qed.

Lemma merge_last_reviewed_wins_witness :
  ((forall v, v ∈ [1%nat] ->
      key (duplicate_deck !!! v) <> key (duplicate_deck !!! 2%nat)) /\
   [0; 1; 2]%nat !! 0%nat = Some 0%nat /\
   key (duplicate_deck !!! 0%nat) = key (duplicate_deck !!! 2%nat)) /\
  merge duplicate_deck ([0%nat] ++ 2%nat :: [1%nat]) [0; 1; 2]%nat !! 0%nat
  = Some 2%nat.
Proof.
  assert (Hlater : forall v, v ∈ [1%nat] ->
            key (duplicate_deck !!! v) <> key (duplicate_deck !!! 2%nat)).
  { intros v Hv. apply list_elem_of_singleton in Hv as ->. discriminate. }
  assert (Hi : [0; 1; 2]%nat !! 0%nat = Some 0%nat) by reflexivity.
  assert (Hk : key (duplicate_deck !!! 0%nat) = key (duplicate_deck !!! 2%nat))
    by reflexivity.
  split; [auto|].
  exact (merge_last_reviewed_wins duplicate_deck [0%nat] 2%nat [1%nat]
           [0; 1; 2]%nat 0%nat 0%nat Hlater Hi Hk).
Defined.

(** ** Properties of [add_new_card] *)

(** X14: [add_new_card] writes the deck exactly when both prompts are
    answered.  It then appends one card to the loaded deck, leaving the
    other cards as they were; the new card satisfies the card
    invariants and is selected as due on the day it was added.  When a
    prompt is cancelled, nothing is written. *)
Theorem add_new_card_saves_due_card today deck stdin :
  match add_new_card today deck stdin with
  | Some saved =>
      exists f b rest,
        stdin = Line f :: Line b :: rest /\
        saved = deck ++ [new_card today f b] /\
        card_inv (new_card today f b) /\
        In (length deck)
          (select_due saved (isoformat today) (seq 0 (length saved)))
  | None => forall f b rest, stdin <> Line f :: Line b :: rest
  end.
Proof.
  destruct (add_new_card today deck stdin) as [saved|] eqn:E.
  - destruct (add_new_card_inv _ _ _ _ E) as (f & b & rest & -> & ->).
    exists f, b, rest. repeat split; try reflexivity; try (simpl; lia).
    apply select_due_In. split.
    + apply in_seq. rewrite length_app. simpl. lia.
    + rewrite lookup_total_app_r by lia. rewrite Nat.sub_diag.
      apply new_card_is_due.
  - intros f b rest ->. discriminate.
Qed.

(** X15: [add_new_card] does not look at the cards of the deck: a card
    whose (front, back) pair is already in the deck is added all the
    same, and the deck written has a duplicate pair. *)
Theorem add_new_card_accepts_duplicate_key today deck f b rest :
  (f, b) ∈ (key <$> deck) ->
  exists saved,
    add_new_card today deck (Line f :: Line b :: rest) = Some saved /\
    ~ NoDup (key <$> saved).
Proof.
  intros Hin. eexists. split; [reflexivity|].
  rewrite fmap_app. simpl. intros Hnd.
  apply NoDup_app in Hnd as (_ & Hdis & _).
  apply (Hdis (f, b) Hin). now left.
Qed.

Lemma add_new_card_accepts_duplicate_key_witness :
  ("q1", "a1") ∈ (key <$> [dup_due]) /\
  exists saved,
    add_new_card new_year_2024 [dup_due] (Line "q1" :: Line "a1" :: [])
    = Some saved /\
    ~ NoDup (key <$> saved).
Proof.
  assert (Hin : ("q1", "a1") ∈ (key <$> [dup_due]))
    by (apply list_elem_of_In; simpl; left; reflexivity).
  split; [exact Hin|].
  exact (add_new_card_accepts_duplicate_key new_year_2024 [dup_due]
           "q1" "a1" [] Hin).
Defined.

(** X16: when both prompts of [add_new_card] are answered, a review
    session run the same day on the deck it has written is neither
    "deck empty" nor "nothing due", and the new card is one of the due
    cards the session goes through.  If this session completes and no
    other card of the deck has the front and back of the new card, the
    deck it saves holds, at the position of the new card, the new card
    updated with a valid score. *)
Theorem session_after_add_reviews_new_card
    today deck f b rest shuffle stdin' :
  (forall l, shuffle l ≡ₚ l) ->
  let saved := deck ++ [new_card today f b] in
  let session := run_review_session today shuffle saved stdin' in
  add_new_card today deck (Line f :: Line b :: rest) = Some saved /\
  session <> EmptyDeck /\ session <> NothingDue /\
  length deck ∈ shuffle (select_due saved (isoformat today)
                           (seq 0 (length saved))) /\
  forall saved',
    session = Completed saved' -> (f, b) ∉ (key <$> deck) ->
    exists q c', valid_score q /\
                 schedule today q (new_card today f b) = Ok c' /\
                 saved' !! length deck = Some c'.
Proof.
  intros Hperm saved session.
  assert (Hin : In (length deck)
            (select_due saved (isoformat today) (seq 0 (length saved)))).
  { apply select_due_In. split.
    - apply in_seq. unfold saved. rewrite length_app. simpl. lia.
    - unfold saved. rewrite lookup_total_app_r by lia. rewrite Nat.sub_diag.
      apply new_card_is_due. }
  pose proof (run_review_session_inv today shuffle saved stdin') as R.
  cbv zeta in R. fold session in R.
  split; [reflexivity|]. split; [|split; [|split]].
  - destruct session; try discriminate. intros _. unfold saved in R.
    now destruct deck.
  - destruct session; try discriminate. intros _. destruct R as [_ R].
    rewrite R in Hin. exact Hin.
  - rewrite Hperm. now apply list_elem_of_In.
  - intros saved' Hs Hnew. rewrite Hs in R.
    destruct R as (_ & h' & u & Hloop & ->).
    apply session_loop_inv in Hloop
      as (k & _ & -> & Hdone & _ & Hlen & Hdue & Hrev & Hsame & Hkey);
      [|exact Hperm].
    rewrite (Hdone eq_refl), firstn_all in *.
    set (due := shuffle (select_due saved (isoformat today) (seq 0 (length saved)))) in *.
    assert (Hl : length deck ∈ due).
    { unfold due. rewrite Hperm. now apply list_elem_of_In. }
    destruct (Hrev _ Hl) as (q & Hq & Hsch).
    unfold saved in Hsch at 1.
    rewrite lookup_total_app_r, Nat.sub_diag in Hsch by lia. simpl in Hsch.
    exists q, (h' !!! length deck). split; [exact Hq|]. split; [exact Hsch|].
    rewrite saved_lookup by (unfold saved; rewrite length_app; simpl; lia).
    f_equal. f_equal. apply (merged_new_key deck (new_card today f b)).
    + exact Hnew.
    + exact Hkey.
    + intros v Hv. now apply Hdue.
Qed.

Lemma session_after_add_reviews_new_card_witness :
  (forall l : list nat, id l ≡ₚ l) /\
  run_review_session new_year_2024 id
    ([dup_due] ++ [new_card new_year_2024 "q" "a"]) two_answers
  <> NothingDue /\
  exists q c',
    valid_score q /\
    schedule new_year_2024 q (new_card new_year_2024 "q" "a") = Ok c' /\
    after_add_completed !! length [dup_due] = Some c'.
Proof.
  assert (Hperm : forall l : list nat, id l ≡ₚ l) by reflexivity.
  split; [exact Hperm|].
  destruct (session_after_add_reviews_new_card new_year_2024 [dup_due]
              "q" "a" [] id two_answers Hperm) as (_ & _ & Hn & _ & Hc).
  split; [exact Hn|].
  apply Hc; [vm_compute; reflexivity|].
  intros Hin. apply list_elem_of_In in Hin. simpl in Hin.
  destruct Hin as [[=]|[]].
Defined.

(** ** Further properties of the update *)

Import PromptFacts FloatOrderFacts FloatValueFacts.

(** X17: white space around the answer does not matter: an answer that
    is one of "1" to "4" with blanks, tabs or line ends before and after
    it is accepted at once, with the score of the bare answer. *)
Theorem padded_answer_is_accepted ws1 k ws2 q today card rest :
  blank ws1 = true -> blank ws2 = true -> QUALITY_MAP k = Some q ->
  review_card today card (Line (ws1 +:+ k +:+ ws2) :: rest)
  = (schedule today q card, rest).
Proof.
  intros H1 H2 Hq. destruct (QUALITY_MAP_keys _ _ Hq) as (c & -> & Hc).
  unfold review_card. simpl read_quality.
  rewrite strip_padded by assumption. now rewrite Hq.
Qed.

Lemma padded_answer_is_accepted_witness :
  (blank " " = true /\ blank "  " = true /\ QUALITY_MAP "4" = Some 5) /\
  review_card new_year_2024 easy_card [Line (" " +:+ "4" +:+ "  ")]
  = (schedule new_year_2024 5 easy_card, []).
Proof.
  assert (H1 : blank " " = true) by reflexivity.
  assert (H2 : blank "  " = true) by reflexivity.
  assert (Hq : QUALITY_MAP "4" = Some 5) by reflexivity.
  split; [auto|].
  exact (padded_answer_is_accepted " " "4" "  " 5 new_year_2024 easy_card []
           H1 H2 Hq).
Defined.

(** X18: for a card whose ease factor is at least 1.3, a review with
    score 5 (Easy) never lowers the ease factor, and a review with score
    0 (Again) or 3 (Hard) never raises it, whatever binary64 value it
    has: the rounding of the addition of line 63 cannot cross the old
    value. *)
Theorem ease_factor_follows_score today q c c' :
  (1.3 <=? ease_factor c)%float = true ->
  schedule today q c = Ok c' ->
  (q = 5 -> (ease_factor c <=? ease_factor c')%float = true) /\
  (q = 0 \/ q = 3 -> (ease_factor c' <=? ease_factor c)%float = true).
Proof.
  intros He H.
  apply schedule_inv in H as (reps & i & ef & d & _ & H2 & _ & ->). simpl.
  unfold next_ease_factor in H2. split.
  - intros ->. change (float_of_int (5 - 5)) with (Ok 0%float) in H2.
    simpl in H2. injection H2 as <-.
    change (0.1 - 0 * (0.08 + 0 * 0.02))%float with 0.1%float.
    assert (Hle : (ease_factor c <=? ease_factor c + 0.1)%float = true)
      by (eapply add_pos_ge; [reflexivity|exact He]).
    rewrite py_max_1_3_id; [exact Hle|]. eapply leb_trans; eauto.
  - assert (Hmax : forall y my ey, Prim2SF y = S754_finite true my ey ->
              (py_max 1.3 (ease_factor c + y) <=? ease_factor c)%float = true).
    { intros y my ey Hy. unfold py_max.
      destruct (1.3 <? ease_factor c + y)%float; [|exact He].
      eapply add_neg_le; eauto. }
    intros [-> | ->].
    + change (float_of_int (5 - 0)) with (Ok 5%float) in H2.
      simpl in H2. injection H2 as <-. eapply Hmax. reflexivity.
    + change (float_of_int (5 - 3)) with (Ok 2%float) in H2.
      simpl in H2. injection H2 as <-. eapply Hmax. reflexivity.
Qed.

Lemma ease_factor_follows_score_witness :
  ((1.3 <=? ease_factor easy_card)%float = true /\
   schedule new_year_2024 5 easy_card = Ok easy_card_reviewed) /\
  (5 = 5 ->
   (ease_factor easy_card <=? ease_factor easy_card_reviewed)%float = true) /\
  (5 = 0 \/ 5 = 3 ->
   (ease_factor easy_card_reviewed <=? ease_factor easy_card)%float = true).
Proof.
  assert (He : (1.3 <=? ease_factor easy_card)%float = true) by reflexivity.
  assert (Hs : schedule new_year_2024 5 easy_card = Ok easy_card_reviewed)
    by (vm_compute; reflexivity).
  split; [auto|].
  exact (ease_factor_follows_score new_year_2024 5 easy_card
           easy_card_reviewed He Hs).
Defined.

(** X19: a successful review (score 3 or more) of a card whose
    [repetitions] is neither 0 nor 1, with [interval >= 1] and
    [ease_factor >= 1.3], never shortens the interval:
    [round(interval * ease_factor) >= interval] on binary64 floats, for
    every interval for which the update succeeds. *)
Theorem mature_card_interval_never_shrinks today q c c' :
  3 <= q -> repetitions c <> 0 -> repetitions c <> 1 ->
  1 <= interval c -> (1.3 <=? ease_factor c)%float = true ->
  schedule today q c = Ok c' ->
  interval c <= interval c'.
Proof.
  intros Hq H0 H1 Hi He H.
  apply schedule_interval_bound in H as (reps & Hn & Hb).
  unfold next_interval in Hn.
  replace (q <? 3) with false in Hn by (symmetry; apply Z.ltb_ge; lia).
  replace (repetitions c =? 0) with false in Hn
    by (symmetry; now apply Z.eqb_neq).
  replace (repetitions c =? 1) with false in Hn
    by (symmetry; now apply Z.eqb_neq).
  destruct (float_of_int (interval c)) as [x|e] eqn:Ex; [|discriminate].
  simpl in Hn.
  set (n := Z.min (interval c) (2 ^ 53)).
  assert (Hn53 : 1 <= n <= 2 ^ 53).
  { unfold n. change (2 ^ 53) with 9007199254740992. lia. }
  assert (A : at_least n (Prim2SF (x * ease_factor c)%float)).
  { rewrite mul_spec. apply SFmul_at_least; [exact Hn53| |].
    - eapply float_of_int_at_least; eauto. unfold n. lia.
    - apply at_least_one_value. now apply leb_1_3_at_least_one. }
  destruct (py_round_at_least _ _ A) as [E|(r & E & Hr)];
    rewrite E in Hn; simpl in Hn; [discriminate|].
  injection Hn as _ Hi'. rewrite <- Hi' in Hb |- *. unfold n in Hr.
  change (2 ^ 53) with 9007199254740992 in Hr. lia.
Qed.

Lemma mature_card_interval_never_shrinks_witness :
  (3 <= 5 /\ repetitions easy_card <> 0 /\ repetitions easy_card <> 1 /\
   1 <= interval easy_card /\
   (1.3 <=? ease_factor easy_card)%float = true /\
   schedule new_year_2024 5 easy_card = Ok easy_card_reviewed) /\
  interval easy_card <= interval easy_card_reviewed.
Proof.
  assert (Hq : 3 <= 5) by lia.
  assert (H0 : repetitions easy_card <> 0) by (simpl; lia).
  assert (H1 : repetitions easy_card <> 1) by (simpl; lia).
  assert (Hi : 1 <= interval easy_card) by (simpl; lia).
  assert (He : (1.3 <=? ease_factor easy_card)%float = true) by reflexivity.
  assert (Hs : schedule new_year_2024 5 easy_card = Ok easy_card_reviewed)
    by (vm_compute; reflexivity).
  split; [auto 10|].
  exact (mature_card_interval_never_shrinks new_year_2024 5 easy_card
           easy_card_reviewed Hq H0 H1 Hi He Hs).
Defined.
